(** * IceNetETL: the [Processor] of the input-blob trigger

    A shallow embedding of [azfunctions/InputBlobTrigger/processor.py].

    Conventions of the embedding.
    - Python and numpy floats are idealised as exact rationals ([Q]);
      a missing value (NaN) of a float column is [None].
    - Python's [int(x)] on a float truncates towards zero: [py_int].
    - The PostgreSQL database is an explicit value ([DB]) threaded through
      the methods; a table is the list of its rows in insertion order.
    - An exception leaving a method is the [Raise] outcome of the
      processor monad [M]. *)

From Stdlib Require Import ZArith QArith Qabs Qround List Bool Lia.
From Stdlib Require String.
Import ListNotations.

Local Open Scope Z_scope.

(** ** Numbers *)

Module Num.

(** [int(x)] for a float [x]: the integer part, rounding towards zero. *)
Definition py_int (q : Q) : Z := Z.quot (Qnum q) (Zpos (Qden q)).

(** [k * x] for a Python integer literal [k] and a float [x]. *)
Definition scale (k : Z) (q : Q) : Q := (inject_Z k * q)%Q.

(** The float [0.5]. *)
Definition half : Q := (1 # 2)%Q.

Definition Qsum (l : list Q) : Q := fold_right Qplus 0%Q l.

Definition Qgtb (a b : Q) : bool := negb (Qle_bool a b).

End Num.

Import Num.

(** ** [utils]: helpers imported by the processor *)

Module Utils.

(** [abs(a[1:] - a[:-1])]: the absolute differences of neighbours. *)
Fixpoint abs_steps (l : list Q) : list Q :=
  match l with
  | a :: (b :: _) as t => Qabs (b - a) :: abs_steps t
  | _ => []
  end.

(** Modelled from the spec: [utils.mean_step_size] is not among the
    sources.  It is "the mean absolute consecutive difference" of an axis,
    defined for at least two points and failing otherwise. *)
Definition mean_step_size (l : list Q) : option Q :=
  match abs_steps l with
  | [] => None
  | d :: ds => Some (Qsum (d :: ds) / inject_Z (Z.of_nat (length (d :: ds))))%Q
  end.

(** One chunk of at most [S k] elements, and what is left after it. *)
Fixpoint take_chunk {A} (k : nat) (l : list A) {struct l}
  : list A * list A :=
  match l with
  | [] => ([], [])
  | a :: t =>
      match k with
      | O => ([a], t)
      | S k' => let (c, r) := take_chunk k' t in (a :: c, r)
      end
  end.

Fixpoint batches_fuel {A} (fuel : nat) (size_pred : nat) (l : list A)
  : list (list A) :=
  match fuel, l with
  | _, [] => []
  | O, _ => []
  | S f, _ => let (c, r) := take_chunk size_pred l in
              c :: batches_fuel f size_pred r
  end.

(** Modelled from the spec: [utils.batches] is not among the sources.  It
    "splits an ordered sequence into fixed-size chunks (final chunk may be
    shorter)".  A chunk size of zero yields no chunk at all. *)
Definition batches {A} (l : list A) (batch_size : nat) : list (list A) :=
  match batch_size with
  | O => []
  | S k => batches_fuel (length l) k l
  end.

Arguments batches : simpl never.

End Utils.

Import Utils.

(** ** Cell geometries (first half of [update_geometries]) *)

Module Geometry.

(** A [shapely] polygon: its ring of vertices, in metres. *)
Definition Polygon := list (Z * Z).

(** A geometry record: [(centroid_x_m, centroid_y_m, wkt, wkt)]. *)
Record GeomRecord := mkGeomRecord {
  rec_centroid_x : Z;
  rec_centroid_y : Z;
  rec_wkt_6931 : Polygon;
  rec_wkt_4326 : Polygon
}.

(** [int(1000 * centroid_km)] *)
Definition centroid_m (centroid_km : Q) : Z := py_int (scale 1000 centroid_km).

(** [1000 * int(0.5 * mean_step_size(centroids_km))]; the exception of
    [mean_step_size] is [None]. *)
Definition delta_m (centroids_km : list Q) : option Z :=
  match mean_step_size centroids_km with
  | Some step => Some (1000 * py_int (half * step)%Q)
  | None => None
  end.

Definition cell_polygon (centroid_x_m centroid_y_m x_delta_m y_delta_m : Z)
  : Polygon :=
  let x_min_m := centroid_x_m - x_delta_m in
  let x_max_m := centroid_x_m + x_delta_m in
  let y_min_m := centroid_y_m - y_delta_m in
  let y_max_m := centroid_y_m + y_delta_m in
  [ (x_min_m, y_max_m); (x_max_m, y_max_m); (x_max_m, y_min_m);
    (x_min_m, y_min_m); (x_min_m, y_max_m) ].

(** The two nested loops appending to [records]. *)
Definition build_records (centroids_x_km centroids_y_km : list Q)
  (x_delta_m y_delta_m : Z) : list GeomRecord :=
  flat_map (fun centroid_x_km =>
    let centroid_x_m := centroid_m centroid_x_km in
    map (fun centroid_y_km =>
      let centroid_y_m := centroid_m centroid_y_km in
      let geometry := cell_polygon centroid_x_m centroid_y_m x_delta_m y_delta_m in
      mkGeomRecord centroid_x_m centroid_y_m geometry geometry)
      centroids_y_km)
    centroids_x_km.

(** The records of a grid, or [None] when a step size cannot be computed. *)
Definition geometry_records (centroids_x_km centroids_y_km : list Q)
  : option (list GeomRecord) :=
  match delta_m centroids_x_km with
  | None => None
  | Some x_delta_m =>
      match delta_m centroids_y_km with
      | None => None
      | Some y_delta_m =>
          Some (build_records centroids_x_km centroids_y_km x_delta_m y_delta_m)
      end
  end.

Definition centroid_pair (r : GeomRecord) : Z * Z :=
  (rec_centroid_x r, rec_centroid_y r).

(** Half of the extent of a polygon along each axis, read off its first
    three vertices (top-left, top-right, bottom-right). *)
Definition half_extent (p : Polygon) : option (Z * Z) :=
  match p with
  | (x0, y0) :: (x1, _) :: (_, y2) :: _ => Some ((x1 - x0) / 2, (y0 - y2) / 2)
  | _ => None
  end.

End Geometry.

Import Geometry.

(** ** The PostgreSQL database *)

Module Database.

(** A PostGIS value, kept symbolic. *)
Inductive Geom :=
| ST_GeomFromText (wkt : Polygon) (srid : Z)
| ST_Transform (g : Geom) (srid : Z).

(** A row of table [cell]. *)
Record CellRow := mkCell {
  cell_id : Z;
  centroid_x : Z;
  centroid_y : Z;
  geom_6931 : Geom;
  geom_4326 : Geom
}.

(** A row of table [prediction]; [cell_id], [mean] and [stddev] may be
    NULL. *)
Record PredictionRow := mkPrediction {
  prediction_id : Z;
  date : Z;
  leadtime : Z;
  p_cell_id : option Z;
  mean : option Q;
  stddev : option Q
}.

(** The columns of [prediction_latest] other than its row number: the
    prediction side and the cell side of the outer join, each NULL as a
    whole when that side is missing. *)
Record JoinedRow := mkJoined {
  j_prediction : option (Z * Z * option Q * option Q);
  j_cell : option CellRow
}.

Record LatestRow := mkLatest {
  prediction_latest_id : Z;
  columns : JoinedRow
}.

(** A table with a SERIAL key: its rows and the next value of the
    sequence behind the key. *)
Record Table (R : Type) := mkTable {
  rows : list R;
  next_id : Z
}.
Arguments mkTable {R}.
Arguments rows {R}.
Arguments next_id {R}.

Record DB := mkDB {
  cell : option (Table CellRow);
  prediction : option (Table PredictionRow);
  prediction_latest : option (list LatestRow)
}.

Definition empty_db : DB := mkDB None None None.

(** The statements the processor sends. *)
Inductive Sql :=
| CreateTableCellIfNotExists
| InsertCell (record : GeomRecord)
| CreateTablePredictionIfNotExists
| InsertPrediction (d l : Z) (c : option Z) (m s : option Q)
| SelectCells
| DropMaterializedViewLatest
| CreateMaterializedViewLatest.

Inductive SqlError :=
| UndefinedTable
| DuplicateTable.

Definition empty_table {R} : Table R := mkTable [] 1.

(** *** Equality of column values; NULLs compare as SQL does in each use *)

Definition Qopt_eqb (a b : option Q) : bool :=
  match a, b with
  | Some x, Some y => Qeq_bool x y
  | None, None => true
  | _, _ => false
  end.

Definition Zopt_eqb (a b : option Z) : bool :=
  match a, b with
  | Some x, Some y => x =? y
  | None, None => true
  | _, _ => false
  end.

Definition point_eqb (p q : Z * Z) : bool :=
  (fst p =? fst q) && (snd p =? snd q).

Fixpoint polygon_eqb (p q : Polygon) : bool :=
  match p, q with
  | [], [] => true
  | a :: p', b :: q' => point_eqb a b && polygon_eqb p' q'
  | _, _ => false
  end.

Fixpoint geom_eqb (g h : Geom) : bool :=
  match g, h with
  | ST_GeomFromText w s, ST_GeomFromText w' s' => polygon_eqb w w' && (s =? s')
  | ST_Transform g' s, ST_Transform h' s' => geom_eqb g' h' && (s =? s')
  | _, _ => false
  end.

Definition cell_eqb (c d : CellRow) : bool :=
  (cell_id c =? cell_id d) && (centroid_x c =? centroid_x d)
  && (centroid_y c =? centroid_y d)
  && geom_eqb (geom_6931 c) (geom_6931 d)
  && geom_eqb (geom_4326 c) (geom_4326 d).

(** Two joined rows fall into the same group of the GROUP BY, in which
    NULLs are not distinct. *)
Definition joined_eqb (a b : JoinedRow) : bool :=
  match j_prediction a, j_prediction b with
  | Some (d, l, m, s), Some (d', l', m', s') =>
      (d =? d') && (l =? l') && Qopt_eqb m m' && Qopt_eqb s s'
  | None, None => true
  | _, _ => false
  end
  &&
  match j_cell a, j_cell b with
  | Some c, Some c' => cell_eqb c c'
  | None, None => true
  | _, _ => false
  end.

(** *** INSERT ... ON CONFLICT DO NOTHING *)

(** The new row violates the primary key or [UNIQUE (centroid_x,
    centroid_y)]. *)
Definition cell_conflict (new old : CellRow) : bool :=
  (cell_id old =? cell_id new)
  || ((centroid_x old =? centroid_x new) && (centroid_y old =? centroid_y new)).

(** [VALUES(DEFAULT, %s, %s, ST_GeomFromText(%s, 6931),
    ST_Transform(ST_GeomFromText(%s, 6931), 4326))] *)
Definition cell_values (id : Z) (r : GeomRecord) : CellRow :=
  mkCell id (rec_centroid_x r) (rec_centroid_y r)
    (ST_GeomFromText (rec_wkt_6931 r) 6931)
    (ST_Transform (ST_GeomFromText (rec_wkt_4326 r) 6931) 4326).

(** The sequence is advanced before the constraints are checked, so a
    skipped row still consumes an id. *)
Definition insert_cell (r : GeomRecord) (t : Table CellRow) : Table CellRow :=
  let new := cell_values (next_id t) r in
  if existsb (cell_conflict new) (rows t)
  then mkTable (rows t) (next_id t + 1)
  else mkTable (rows t ++ [new]) (next_id t + 1).

(** The new row violates the primary key or [UNIQUE (date, leadtime,
    cell_id)]; a NULL [cell_id] never violates the latter. *)
Definition prediction_conflict (new old : PredictionRow) : bool :=
  (prediction_id old =? prediction_id new)
  || ((date old =? date new) && (leadtime old =? leadtime new)
      && match p_cell_id old, p_cell_id new with
         | Some c, Some c' => c =? c'
         | _, _ => false
         end).

Definition insert_prediction (d l : Z) (c : option Z) (m s : option Q)
  (t : Table PredictionRow) : Table PredictionRow :=
  let new := mkPrediction (next_id t) d l c m s in
  if existsb (prediction_conflict new) (rows t)
  then mkTable (rows t) (next_id t + 1)
  else mkTable (rows t ++ [new]) (next_id t + 1).

(** *** The query behind [prediction_latest] *)

Definition prediction_columns (p : PredictionRow)
  : Z * Z * option Q * option Q :=
  (date p, leadtime p, mean p, stddev p).

(** [prediction.cell_id = cell.cell_id]; never true on a NULL. *)
Definition join_on (p : PredictionRow) (c : CellRow) : bool :=
  match p_cell_id p with
  | Some i => i =? cell_id c
  | None => false
  end.

(** [FROM prediction FULL OUTER JOIN cell ON ...] *)
Definition full_outer_join (ps : list PredictionRow) (cs : list CellRow)
  : list JoinedRow :=
  flat_map (fun p =>
    match filter (join_on p) cs with
    | [] => [mkJoined (Some (prediction_columns p)) None]
    | ms => map (fun c => mkJoined (Some (prediction_columns p)) (Some c)) ms
    end) ps
  ++ map (fun c => mkJoined None (Some c))
       (filter (fun c => negb (existsb (fun p => join_on p c) ps)) cs).

(** [SELECT max(date) FROM prediction]; NULL on an empty table. *)
Definition max_date (ps : list PredictionRow) : option Z :=
  match ps with
  | [] => None
  | p :: ps' => Some (fold_left Z.max (map date ps') (date p))
  end.

(** [WHERE date = (SELECT max(date) ...)]; not true on a NULL. *)
Definition where_latest (m : option Z) (j : JoinedRow) : bool :=
  match j_prediction j, m with
  | Some (d, _, _, _), Some d' => d =? d'
  | _, _ => false
  end.

(** GROUP BY over every selected column: one row for each group. *)
Fixpoint group_by (l : list JoinedRow) : list JoinedRow :=
  match l with
  | [] => []
  | j :: l' => j :: filter (fun k => negb (joined_eqb j k)) (group_by l')
  end.

(** [row_number() OVER (PARTITION BY true)] *)
Fixpoint row_number (n : Z) (l : list JoinedRow) : list LatestRow :=
  match l with
  | [] => []
  | j :: l' => mkLatest n j :: row_number (n + 1) l'
  end.

Definition latest_query (ps : list PredictionRow) (cs : list CellRow)
  : list LatestRow :=
  row_number 1
    (group_by (filter (where_latest (max_date ps)) (full_outer_join ps cs))).

(** *** Executing one statement *)

Definition exec_sql (q : Sql) (db : DB) : SqlError + DB :=
  match q with
  | CreateTableCellIfNotExists =>
      match cell db with
      | Some _ => inr db
      | None => inr (mkDB (Some empty_table) (prediction db) (prediction_latest db))
      end
  | InsertCell r =>
      match cell db with
      | Some t => inr (mkDB (Some (insert_cell r t)) (prediction db)
                         (prediction_latest db))
      | None => inl UndefinedTable
      end
  | CreateTablePredictionIfNotExists =>
      match prediction db, cell db with
      | Some _, _ => inr db
      | None, Some _ => inr (mkDB (cell db) (Some empty_table) (prediction_latest db))
      | None, None => inl UndefinedTable
      end
  | InsertPrediction d l c m s =>
      match prediction db with
      | Some t => inr (mkDB (cell db) (Some (insert_prediction d l c m s t))
                         (prediction_latest db))
      | None => inl UndefinedTable
      end
  | SelectCells =>
      match cell db with
      | Some _ => inr db
      | None => inl UndefinedTable
      end
  | DropMaterializedViewLatest =>
      match prediction_latest db with
      | Some _ => inr (mkDB (cell db) (prediction db) None)
      | None => inl UndefinedTable
      end
  | CreateMaterializedViewLatest =>
      match prediction_latest db, prediction db, cell db with
      | Some _, _, _ => inl DuplicateTable
      | None, Some ps, Some cs =>
          inr (mkDB (cell db) (prediction db)
                 (Some (latest_query (rows ps) (rows cs))))
      | None, _, _ => inl UndefinedTable
      end
  end.

(** Several statements in one [execute]: in order, until one fails. *)
Fixpoint exec_script (qs : list Sql) (db : DB) : SqlError + DB :=
  match qs with
  | [] => inr db
  | q :: qs' =>
      match exec_sql q db with
      | inl e => inl e
      | inr db' => exec_script qs' db'
      end
  end.

End Database.

Import Database.

(** ** The decoded input: an [xarray] dataset and its data frames *)

Module Xarray.

(** A dataset over the dimensions [(time, leadtime, xc, yc)] with the data
    variables [mean] and [stddev]; a variable is read by position along
    each dimension, [None] being NaN.  Times are seconds since the epoch,
    [xc] and [yc] are kilometres. *)
Record Dataset := mkDataset {
  ds_time : list Z;
  ds_leadtime : list Z;
  ds_xc : list Q;
  ds_yc : list Q;
  ds_mean : nat -> nat -> nat -> nat -> option Q;
  ds_stddev : nat -> nat -> nat -> nat -> option Q
}.

(** One row of [to_dataframe().reset_index()]. *)
Record Row := mkRow {
  r_time : Z;
  r_leadtime : Z;
  r_xc : Q;
  r_yc : Q;
  r_mean : option Q;
  r_stddev : option Q
}.

(** [self.xr["mean"] > 0], element by element; false on NaN. *)
Definition positive (v : option Q) : bool :=
  match v with
  | Some q => Qgtb q 0
  | None => false
  end.

(** [ds.where(cond)]: every data variable becomes NaN where [cond] is
    false. *)
Definition where_ (cond : nat -> nat -> nat -> nat -> bool) (ds : Dataset)
  : Dataset :=
  mkDataset (ds_time ds) (ds_leadtime ds) (ds_xc ds) (ds_yc ds)
    (fun t l x y => if cond t l x y then ds_mean ds t l x y else None)
    (fun t l x y => if cond t l x y then ds_stddev ds t l x y else None).

Definition enumerate {A} (l : list A) : list (nat * A) :=
  combine (seq 0 (length l)) l.

(** [ds.to_dataframe()]: one row for each point of the product of the
    dimensions. *)
Definition to_dataframe (ds : Dataset) : list Row :=
  flat_map (fun t =>
    flat_map (fun l =>
      flat_map (fun x =>
        map (fun y =>
          mkRow (snd t) (snd l) (snd x) (snd y)
            (ds_mean ds (fst t) (fst l) (fst x) (fst y))
            (ds_stddev ds (fst t) (fst l) (fst x) (fst y)))
          (enumerate (ds_yc ds)))
        (enumerate (ds_xc ds)))
      (enumerate (ds_leadtime ds)))
    (enumerate (ds_time ds)).

Definition notna (v : option Q) : bool :=
  match v with
  | Some _ => true
  | None => false
  end.

(** [df.dropna()]: keeps the rows without any missing value. *)
Definition dropna (df : list Row) : list Row :=
  filter (fun r => notna (r_mean r) && notna (r_stddev r)) df.

(** [self.xr.where(self.xr["mean"] > 0).to_dataframe().dropna().reset_index()] *)
Definition df_predictions (ds : Dataset) : list Row :=
  dropna (to_dataframe
            (where_ (fun t l x y => positive (ds_mean ds t l x y)) ds)).

(** The absolute tolerance of [numpy.allclose], with which [pandas]
    decides that a downcast loses nothing. *)
Definition allclose_atol : Q := (1 # 100000000)%Q.

Definition lossless (v : Q) : bool :=
  Qle_bool (Qabs (inject_Z (py_int v) - v)) allclose_atol.

(** [pd.to_numeric(column, downcast="integer")] on a float column: the
    column becomes an integer column when every value survives the cast,
    and is returned as it is otherwise. *)
Definition to_numeric_downcast_integer (column : list Q) : list Q :=
  if forallb lossless column
  then map (fun v => inject_Z (py_int v)) column
  else column.

(** A row of [df_predictions] with its columns [xc_m] and [yc_m]. *)
Record KeyedRow := mkKeyed {
  k_row : Row;
  xc_m : Q;
  yc_m : Q
}.

(** The two assignments [df_predictions["xc_m"] = ...] and
    [df_predictions["yc_m"] = ...]. *)
Definition with_metres (df : list Row) : list KeyedRow :=
  let xs := to_numeric_downcast_integer (map (fun r => scale 1000 (r_xc r)) df) in
  let ys := to_numeric_downcast_integer (map (fun r => scale 1000 (r_yc r)) df) in
  map (fun '(r, (x, y)) => mkKeyed r x y) (combine df (combine xs ys)).

(** A row of [df_cells]. *)
Definition CellKey := (Z * Z * Z)%type.

Definition df_cells (cs : list CellRow) : list CellKey :=
  map (fun c => (cell_id c, centroid_x c, centroid_y c)) cs.

(** A row of [df_merged]; [m_cell_id] is NaN ([None]) when no cell
    matched. *)
Record MergedRow := mkMerged {
  m_row : KeyedRow;
  m_cell_id : option Z
}.

Definition key_match (k : KeyedRow) (c : CellKey) : bool :=
  let '(_, cx, cy) := c in
  Qeq_bool (xc_m k) (inject_Z cx) && Qeq_bool (yc_m k) (inject_Z cy).

(** [pd.merge(left, right, how="left", left_on=["xc_m", "yc_m"],
    right_on=["centroid_x", "centroid_y"])] *)
Definition merge_left (left : list KeyedRow) (right : list CellKey)
  : list MergedRow :=
  flat_map (fun k =>
    match filter (key_match k) right with
    | [] => [mkMerged k None]
    | ms => map (fun '(id, _, _) => mkMerged k (Some id)) ms
    end) left.

(** [Timestamp.date()]: the day a time falls in. *)
Definition date_of (time : Z) : Z := time / 86400.

Arguments df_predictions : simpl never.
Arguments with_metres : simpl never.
Arguments merge_left : simpl never.
Arguments df_cells : simpl never.

End Xarray.

Import Xarray.

(** ** The processor *)

Module Processor.

Inductive Exn :=
| ValueError (text : String.string)
| OtherDecodeError (text : String.string)
| AttributeError
| ZeroDivisionError
| StepSizeError
| DatabaseError (e : SqlError).

(** The keys of [self.tables]. *)
Inductive TableKey := geom | predictions | latest.

(** Modelled from the spec: [utils.human_readable] is not among the
    sources; it renders a number of seconds "as a coarse human-readable
    duration", a presentation detail.  The text is kept symbolic. *)
Inductive Duration := human_readable (remaining_time : Q).

Inductive Message :=
| AttemptingToLoad (name : String.string)
| LoadedNetCDF (dims : nat * nat * nat * nat)
| CouldNotLoad (name : String.string)
| ExceptionText (exc : Exn)
| EnsuringTableExists (t : TableKey)
| EnsuredTableExists (t : TableKey)
| IdentifyingGeometries
| IdentifiedGeometries (n : nat)
| LoadingPredictions
| LoadedPredictions (n : nat)
| IdentifyingCellIds
| IdentifiedCellIds (n : nat)
| EnsuringContainsAll (t : TableKey) (n : nat)
| BatchPreparing (t : TableKey) (idx n_batches : Z) (len : nat)
| BatchDone (t : TableKey) (idx n_batches : Z) (len : nat) (remaining : Duration)
| EnsuredContainsAll (t : TableKey)
| UpdatingView
| UpdatedView.

Inductive LogRecord :=
| INFO (m : Message)
| ERROR (m : Message).

(** The processor and the world it acts on.  [cnxn] is the database as
    the open transaction sees it, [committed] what a commit has made
    durable; [executed] lists every statement handed to the cursor, [log]
    every log record, both oldest first.  [monotonic] gives the readings
    of [time.monotonic()], of which [ticks] have been taken. *)
Record State := mkState {
  batch_size : nat;
  xr : option Dataset;
  cnxn : DB;
  committed : DB;
  executed : list Sql;
  log : list LogRecord;
  monotonic : nat -> Q;
  ticks : nat
}.

Inductive Outcome (A : Type) :=
| Return (a : A)
| Raise (e : Exn).
Arguments Return {A}.
Arguments Raise {A}.

Definition M (A : Type) : Type := State -> Outcome A * State.

Definition ret {A} (a : A) : M A := fun s => (Return a, s).

Definition raise {A} (e : Exn) : M A := fun s => (Raise e, s).

Definition bind {A B} (c : M A) (k : A -> M B) : M B :=
  fun s =>
    match c s with
    | (Return a, s') => k a s'
    | (Raise e, s') => (Raise e, s')
    end.

Notation "x <- c ;; k" := (bind c (fun x => k))
  (at level 61, c at next level, right associativity).
Notation "c ;; k" := (bind c (fun _ => k))
  (at level 61, right associativity).

(** [try: c except ValueError as exc: handler(exc)] *)
Definition try_except_ValueError {A} (c : M A) (handler : Exn -> M A) : M A :=
  fun s =>
    match c s with
    | (Raise (ValueError t), s') => handler (ValueError t) s'
    | r => r
    end.

Definition logging (r : LogRecord) : M unit :=
  fun s => (Return tt,
            mkState (batch_size s) (xr s) (cnxn s) (committed s) (executed s)
              (log s ++ [r]) (monotonic s) (ticks s)).

Definition logging_info (m : Message) : M unit := logging (INFO m).
Definition logging_error (m : Message) : M unit := logging (ERROR m).

(** [self.cursor.execute(...)] *)
Definition cursor_execute (qs : list Sql) : M unit :=
  fun s =>
    match exec_script qs (cnxn s) with
    | inr db =>
        (Return tt,
         mkState (batch_size s) (xr s) db (committed s) (executed s ++ qs)
           (log s) (monotonic s) (ticks s))
    | inl e =>
        (Raise (DatabaseError e),
         mkState (batch_size s) (xr s) (cnxn s) (committed s) (executed s ++ qs)
           (log s) (monotonic s) (ticks s))
    end.

(** [self.cnxn.commit()] *)
Definition cnxn_commit : M unit :=
  fun s => (Return tt,
            mkState (batch_size s) (xr s) (cnxn s) (cnxn s) (executed s)
              (log s) (monotonic s) (ticks s)).

(** [time.monotonic()] *)
Definition time_monotonic : M Q :=
  fun s => (Return (monotonic s (ticks s)),
            mkState (batch_size s) (xr s) (cnxn s) (committed s) (executed s)
              (log s) (monotonic s) (S (ticks s))).

Definition set_xr (ds : Dataset) : M unit :=
  fun s => (Return tt,
            mkState (batch_size s) (Some ds) (cnxn s) (committed s) (executed s)
              (log s) (monotonic s) (ticks s)).

(** Reading an attribute of [self.xr], which is [None] until loaded. *)
Definition self_xr : M Dataset :=
  fun s =>
    match xr s with
    | Some ds => (Return ds, s)
    | None => (Raise AttributeError, s)
    end.

Definition self_batch_size : M nat := fun s => (Return (batch_size s), s).

(** [pd.io.sql.read_sql_query("SELECT cell_id, centroid_x, centroid_y FROM
    cell;", self.cnxn)] *)
Definition read_cells : M (list CellKey) :=
  fun s =>
    match cell (cnxn s) with
    | Some t =>
        (Return (df_cells (rows t)),
         mkState (batch_size s) (xr s) (cnxn s) (committed s)
           (executed s ++ [SelectCells]) (log s) (monotonic s) (ticks s))
    | None =>
        (Raise (DatabaseError UndefinedTable),
         mkState (batch_size s) (xr s) (cnxn s) (committed s)
           (executed s ++ [SelectCells]) (log s) (monotonic s) (ticks s))
    end.

Definition lift_option {A} (e : Exn) (o : option A) : M A :=
  match o with
  | Some a => ret a
  | None => raise e
  end.

Fixpoint for_each {A} (body : A -> M unit) (l : list A) : M unit :=
  match l with
  | [] => ret tt
  | a :: l' => body a ;; for_each body l'
  end.

(** [for idx, a in enumerate(l, start=idx): body] *)
Fixpoint for_enumerate {A} (body : Z -> A -> M unit) (idx : Z) (l : list A)
  : M unit :=
  match l with
  | [] => ret tt
  | a :: l' => body idx a ;; for_enumerate body (idx + 1) l'
  end.

(** [int(math.ceil(n / self.batch_size))] *)
Definition count_batches (n : nat) : M Z :=
  size <- self_batch_size ;;
  match size with
  | O => raise ZeroDivisionError
  | S _ => ret (Qceiling (inject_Z (Z.of_nat n) / inject_Z (Z.of_nat size)))
  end.

(** [elapsed * (n_batches / idx - 1)] *)
Definition eta (elapsed : Q) (n_batches idx : Z) : Q :=
  (elapsed * (inject_Z n_batches / inject_Z idx - 1))%Q.

(** One turn of the batch loop shared by the two upserting methods. *)
Definition batch_body {A} (t : TableKey) (insert : A -> Sql)
  (n_batches : Z) (start_time : Q) (idx : Z) (record_batch : list A) : M unit :=
  logging_info (BatchPreparing t idx n_batches (length record_batch)) ;;
  for_each (fun record => cursor_execute [insert record]) record_batch ;;
  cnxn_commit ;;
  now <- time_monotonic ;;
  let remaining_time := eta (now - start_time)%Q n_batches idx in
  logging_info (BatchDone t idx n_batches (length record_batch)
                  (human_readable remaining_time)).

(** The batch loop, from [n_batches = ...] to its last turn. *)
Definition insert_batches {A} (t : TableKey) (insert : A -> Sql)
  (records : list A) : M unit :=
  n_batches <- count_batches (length records) ;;
  start_time <- time_monotonic ;;
  size <- self_batch_size ;;
  for_enumerate (batch_body t insert n_batches start_time)
    1 (batches records size).

Section Load.

(** [xarray.open_dataset(io.BytesIO(blob))]: the dataset, or the
    exception raised. *)
Variable open_dataset : list Byte.byte -> Exn + Dataset.

(** An [azure.functions.InputStream]. *)
Record InputStream := mkInputStream {
  name : String.string;
  read : list Byte.byte
}.

Definition dims (ds : Dataset) : nat * nat * nat * nat :=
  (length (ds_time ds), length (ds_leadtime ds),
   length (ds_xc ds), length (ds_yc ds)).

Definition load (inputBlob : InputStream) : M unit :=
  logging_info (AttemptingToLoad (name inputBlob)) ;;
  try_except_ValueError
    (ds <- (match open_dataset (read inputBlob) with
            | inr ds => ret ds
            | inl e => raise e
            end) ;;
     set_xr ds ;;
     logging_info (LoadedNetCDF (dims ds)))
    (fun exc =>
       logging_error (CouldNotLoad (name inputBlob)) ;;
       logging_error (ExceptionText exc)).

End Load.

Definition update_geometries : M unit :=
  logging_info (EnsuringTableExists geom) ;;
  cursor_execute [CreateTableCellIfNotExists] ;;
  cnxn_commit ;;
  logging_info (EnsuredTableExists geom) ;;
  logging_info IdentifyingGeometries ;;
  ds <- self_xr ;;
  records <- lift_option StepSizeError
               (geometry_records (ds_xc ds) (ds_yc ds)) ;;
  logging_info (IdentifiedGeometries (length records)) ;;
  logging_info (EnsuringContainsAll geom (length records)) ;;
  insert_batches geom InsertCell records ;;
  logging_info (EnsuredContainsAll geom).

(** The parameters of the INSERT into [prediction] for one record. *)
Definition prediction_insert (record : MergedRow) : Sql :=
  let r := k_row (m_row record) in
  InsertPrediction (date_of (r_time r)) (r_leadtime r) (m_cell_id record)
    (r_mean r) (r_stddev r).

Definition update_predictions : M unit :=
  logging_info (EnsuringTableExists predictions) ;;
  cursor_execute [CreateTablePredictionIfNotExists] ;;
  cnxn_commit ;;
  logging_info (EnsuredTableExists predictions) ;;
  logging_info LoadingPredictions ;;
  ds <- self_xr ;;
  let df := with_metres (df_predictions ds) in
  logging_info (LoadedPredictions (length df)) ;;
  logging_info IdentifyingCellIds ;;
  cells <- read_cells ;;
  let df_merged := merge_left df cells in
  logging_info (IdentifiedCellIds (length df_merged)) ;;
  logging_info (EnsuringContainsAll predictions (length df_merged)) ;;
  insert_batches predictions prediction_insert df_merged ;;
  logging_info (EnsuredContainsAll predictions).

Definition update_latest_prediction : M unit :=
  logging_info UpdatingView ;;
  cursor_execute [DropMaterializedViewLatest; CreateMaterializedViewLatest] ;;
  cnxn_commit ;;
  logging_info UpdatedView.

(** A new processor: [Processor(batch_size)] connected to a database. *)
Definition init (size : nat) (db : DB) (clock : nat -> Q) : State :=
  mkState size None db db [] [] clock 0.

End Processor.

Import Processor.

(** ** Notions used in the statements *)

Module Props.

(** The half-width as the specification words it: "convert to meters, take
    half, truncate to integer". *)
Definition spec_half_width (centroids_km : list Q) : option Z :=
  match mean_step_size centroids_km with
  | Some step => Some (py_int (half * scale 1000 step)%Q)
  | None => None
  end.

Definition rows_of {R} (t : option (Table R)) : list R :=
  match t with
  | Some t' => rows t'
  | None => []
  end.

(** Every key of the table was drawn from its sequence. *)
Definition cell_ids_drawn (db : DB) : Prop :=
  forall t, cell db = Some t ->
  Forall (fun c => cell_id c < next_id t) (rows t).

(** The rows of table [cell], none when the table is missing. *)
Definition cell_rows (db : DB) : list CellRow := rows_of (cell db).

(** Every prediction of the table has a strictly positive mean. *)
Definition means_positive (db : DB) : Prop :=
  forall p, In p (rows_of (prediction db)) -> positive (mean p) = true.

(** Every prediction of the table has a standard deviation. *)
Definition stddevs_present (db : DB) : Prop :=
  forall p, In p (rows_of (prediction db)) -> stddev p <> None.

(** A statement that inserts a prediction carries a strictly positive
    mean and a standard deviation. *)
Definition complete_insert (q : Sql) : Prop :=
  match q with
  | InsertPrediction _ _ _ m s => positive m = true /\ s <> None
  | _ => True
  end.

(** The records the batch loop logs, from turn [idx] on, when the clock
    has been read [tick] times before the turn ends. *)
Fixpoint batch_reports {A} (t : TableKey) (clock : nat -> Q) (n_batches : Z)
  (start_time : Q) (idx : Z) (tick : nat) (bl : list (list A))
  : list LogRecord :=
  match bl with
  | [] => []
  | b :: bl' =>
      INFO (BatchPreparing t idx n_batches (length b))
      :: INFO (BatchDone t idx n_batches (length b)
                 (human_readable (eta (clock tick - start_time)%Q n_batches idx)))
      :: batch_reports t clock n_batches start_time (idx + 1) (S tick) bl'
  end.

(** The table a CREATE TABLE IF NOT EXISTS leaves. *)
Definition ensured {R} (t : option (Table R)) : Table R :=
  match t with
  | Some t' => t'
  | None => empty_table
  end.

(** Inserting records one after the other. *)
Definition upsert_cells (records : list GeomRecord) (t : Table CellRow)
  : Table CellRow :=
  fold_left (fun t' r => insert_cell r t') records t.

Definition upsert_predictions (records : list MergedRow)
  (t : Table PredictionRow) : Table PredictionRow :=
  fold_left (fun t' record =>
               let r := k_row (m_row record) in
               insert_prediction (date_of (r_time r)) (r_leadtime r)
                 (m_cell_id record) (r_mean r) (r_stddev r) t')
    records t.

(** The database after [update_geometries] has upserted [records]. *)
Definition with_cells (records : list GeomRecord) (db : DB) : DB :=
  mkDB (Some (upsert_cells records (ensured (cell db))))
    (prediction db) (prediction_latest db).

(** The table holds a cell at the centroid of record [r]. *)
Definition has_centroid (r : GeomRecord) (rs : list CellRow) : Prop :=
  exists c, In c rs /\ centroid_x c = rec_centroid_x r
            /\ centroid_y c = rec_centroid_y r.

Definition ids_below (t : Table CellRow) : Prop :=
  Forall (fun c => cell_id c < next_id t) (rows t).

(** The rows [update_predictions] sends to the database. *)
Definition resolved (ds : Dataset) (cells : list CellRow) : list MergedRow :=
  merge_left (with_metres (df_predictions ds)) (df_cells cells).

(** The database after [update_predictions] has upserted [records]. *)
Definition with_predictions (records : list MergedRow) (db : DB) : DB :=
  mkDB (cell db) (Some (upsert_predictions records (ensured (prediction db))))
    (prediction_latest db).


(** [n_batches] for [n] records. *)
Definition n_batches_of (n size : nat) : Z :=
  Qceiling (inject_Z (Z.of_nat n) / inject_Z (Z.of_nat size)).

(** The number of chunks of [n] elements, [S k] to a chunk. *)
Definition chunks (n : nat) (k : nat) : Z :=
  - ((- Z.of_nat n) / Z.of_nat (S k)).

(** The rows of the latest view that show cell [id]. *)
Definition rows_of_cell (id : Z) (view : list LatestRow) : list LatestRow :=
  filter (fun r => match j_cell (columns r) with
                   | Some c => cell_id c =? id
                   | None => false
                   end) view.

(** Two joined rows show the same values: equal integers and cells,
    floats equal as numbers, NULL alike on either side. *)
Definition Qopt_equiv (a b : option Q) : Prop :=
  match a, b with
  | Some x, Some y => (x == y)%Q
  | None, None => True
  | _, _ => False
  end.

Definition prediction_equiv (a b : option (Z * Z * option Q * option Q))
  : Prop :=
  match a, b with
  | Some (d, l, m, s), Some (d', l', m', s') =>
      d = d' /\ l = l' /\ Qopt_equiv m m' /\ Qopt_equiv s s'
  | None, None => True
  | _, _ => False
  end.

Definition joined_equiv (a b : JoinedRow) : Prop :=
  prediction_equiv (j_prediction a) (j_prediction b) /\ j_cell a = j_cell b.


(** The rows of the latest view that show the joined row [j]. *)
Definition rows_showing (j : JoinedRow) (view : list LatestRow)
  : list LatestRow :=
  filter (fun r => joined_eqb j (columns r)) view.

(** The state after a method, whatever its outcome. *)
Definition after {A} (c : M A) (s : State) : State := snd (c s).

End Props.

Import Props.

(** ** Concrete inputs *)

Module Examples.

Definition clock : nat -> Q := fun n => inject_Z (Z.of_nat n).

(** Two x centroids 0.4 m apart. *)
Definition close_axis : list Q := [0%Q; (1 # 2500)%Q].
Definition unit_axis : list Q := [0%Q; 1%Q].

(** The 25 km grid spacing of the forecasts. *)
Definition axis_25km : list Q := [0%Q; 25%Q].

Definition axis_10km : list Q := [0%Q; 10%Q].


(** A forecast on whole kilometres, with two lead times. *)
Definition two_leadtimes : Dataset :=
  mkDataset [0] [1; 2] [0%Q; 25%Q] [0%Q; 25%Q]
    (fun _ _ _ _ => Some (1 # 2)%Q) (fun _ _ _ _ => Some (1 # 10)%Q).

(** A forecast with a mean everywhere and no standard deviation on the
    first x centroid. *)
Definition missing_stddev : Dataset :=
  mkDataset [0] [1] [0%Q; 25%Q] [0%Q; 25%Q]
    (fun _ _ _ _ => Some (1 # 2)%Q)
    (fun _ _ x _ => match x with O => None | S _ => Some (1 # 10)%Q end).

(** A forecast whose mean is zero on the first x centroid, negative on
    the second and missing on the third. *)
Definition no_ice : Dataset :=
  mkDataset [0] [1] [0%Q; 25%Q; 50%Q] [0%Q; 25%Q]
    (fun _ _ x _ => match x with
                    | O => Some 0%Q
                    | S O => Some (- (1 # 2))%Q
                    | S (S _) => None
                    end)
    (fun _ _ _ _ => Some (1 # 10)%Q).

Definition loaded (size : nat) (ds : Dataset) (db : DB) : State :=
  mkState size (Some ds) db db [] [] clock 0.

(** One cell with two predictions for the same day, at lead times 1
    and 2. *)
Definition one_cell : list CellRow :=
  [mkCell 1 0 0 (ST_GeomFromText [] 6931)
     (ST_Transform (ST_GeomFromText [] 6931) 4326)].

Definition two_predictions : list PredictionRow :=
  [mkPrediction 1 0 1 (Some 1) (Some (1 # 2)%Q) (Some (1 # 10)%Q);
   mkPrediction 2 0 2 (Some 1) (Some (1 # 2)%Q) (Some (1 # 10)%Q)].

Import String.

(** A database with [one_cell], [two_predictions] and an empty view. *)
Definition two_leadtimes_db : DB :=
  mkDB (Some (mkTable one_cell 2)) (Some (mkTable two_predictions 3))
    (Some []).

Definition unreadable (bytes : list Byte.byte) : Exn + Dataset :=
  inl (ValueError "unrecognised file format"%string).

Definition bad_blob : InputStream := mkInputStream "forecast.nc"%string [].

End Examples.

(** ** Further notions: the constraints of the schema and what the
    methods keep *)

Module Invariants.

Definition centroid_of (c : CellRow) : Z * Z := (centroid_x c, centroid_y c).

(** The primary key and [UNIQUE (centroid_x, centroid_y)] of table
    [cell] hold. *)
Definition cells_unique (rs : list CellRow) : Prop :=
  NoDup (map cell_id rs) /\ NoDup (map centroid_of rs).

(** The two geometry columns of a cell describe the same polygon. *)
Definition geometries_agree (rs : list CellRow) : Prop :=
  Forall (fun c => exists wkt,
            geom_6931 c = ST_GeomFromText wkt 6931
            /\ geom_4326 c = ST_Transform (geom_6931 c) 4326) rs.

(** A statement on table [cell]. *)
Definition cell_statement (q : Sql) : Prop :=
  match q with
  | CreateTableCellIfNotExists | InsertCell _ => True
  | _ => False
  end.

(** The foreign key of table [prediction] holds: a [cell_id] that is not
    NULL is the key of a cell. *)
Definition references_cells (db : DB) : Prop :=
  forall p id,
    In p (rows_of (prediction db)) -> p_cell_id p = Some id ->
    exists c, In c (cell_rows db) /\ cell_id c = id.

(** Every key of table [prediction] was drawn from its sequence. *)
Definition prediction_ids_drawn (db : DB) : Prop :=
  forall t, prediction db = Some t ->
  Forall (fun p => prediction_id p < next_id t) (rows t).

Definition predictions_below (t : Table PredictionRow) : Prop :=
  Forall (fun p => prediction_id p < next_id t) (rows t).

(** The table holds a prediction with the key [(date, leadtime,
    cell_id)] of record [m], whose cell is resolved. *)
Definition has_prediction (m : MergedRow) (rs : list PredictionRow) : Prop :=
  exists p id,
    In p rs /\ m_cell_id m = Some id /\ p_cell_id p = Some id
    /\ date p = date_of (r_time (k_row (m_row m)))
    /\ leadtime p = r_leadtime (k_row (m_row m)).

(** The INSERT of record [m], as [update_predictions] sends it. *)
Definition insert_merged (m : MergedRow) (t : Table PredictionRow)
  : Table PredictionRow :=
  insert_prediction (date_of (r_time (k_row (m_row m))))
    (r_leadtime (k_row (m_row m))) (m_cell_id m)
    (r_mean (k_row (m_row m))) (r_stddev (k_row (m_row m))) t.

(** A statement on table [prediction], or the reading of the cells. *)
Definition prediction_statement (q : Sql) : Prop :=
  match q with
  | CreateTablePredictionIfNotExists | InsertPrediction _ _ _ _ _
  | SelectCells => True
  | _ => False
  end.

(** A coordinate in kilometres that is a whole number of metres. *)
Definition whole_metres (x : Q) : Prop :=
  (scale 1000 x == inject_Z (centroid_m x))%Q.

(** The test of [dropna] after [where]: the mean strictly positive and a
    standard deviation given. *)
Definition kept (r : Row) : bool := positive (r_mean r) && notna (r_stddev r).

(** What [where] does to one row of the frame. *)
Definition masked (r : Row) : Row :=
  if positive (r_mean r) then r
  else mkRow (r_time r) (r_leadtime r) (r_xc r) (r_yc r) None None.

(** The clock never runs backwards. *)
Definition nondecreasing (clock : nat -> Q) : Prop :=
  forall i j, (i <= j)%nat -> (clock i <= clock j)%Q.

End Invariants.

Import Invariants.

(** ** Further inputs *)

Module MoreExamples.

Import Examples.

(** One cell and one prediction that no cell was found for. *)
Definition unresolved : PredictionRow :=
  mkPrediction 1 0 1 None (Some (1 # 2)%Q) (Some (1 # 10)%Q).

Definition unresolved_db : DB :=
  mkDB (Some (mkTable one_cell 2)) (Some (mkTable [unresolved] 2)) (Some []).

End MoreExamples.

Import MoreExamples.

(** ** The connection of the processor: [__init__], [cnxn], [cursor] and
    [__del__] *)

Module Connection.

Import String.

(** The four variables read with [os.getenv]; one that is not set reads
    [None]. *)
Record Environ := mkEnviron {
  PSQL_HOST : option string;
  PSQL_DB : option string;
  PSQL_USER : option string;
  PSQL_PWD : option string
}.

(** A value inside an f-string: [None] prints as its name. *)
Definition fstring (v : option string) : string :=
  match v with
  | Some text => text
  | None => "None"%string
  end.

(** The keyword arguments of [psycopg2.connect]. *)
Record ConnectArgs := mkConnectArgs {
  dbname : option string;
  port : string;
  user : string;
  password : option string;
  host : option string
}.

Inductive ConnectError :=
| OperationalError
| OtherConnectError.

(** A connection the server has handed out. *)
Definition Handle := nat.

(** A cursor: the connection it was made on and its number. *)
Definition CursorHandle := (Handle * nat)%type.

Inductive ConnectLog :=
| InfoConnected (db_name db_host : string)
| ErrorFailedToConnect (db_name db_host : string).

(** The processor as far as its connection goes, with what the world has
    seen of it: the calls of [psycopg2.connect], the number of cursors
    made, the connections closed and the log. *)
Record Client := mkClient {
  cnxn_ : option Handle;
  cursor_ : option CursorHandle;
  connect_calls : list ConnectArgs;
  cursors_made : nat;
  closed : list Handle;
  connect_log : list ConnectLog
}.

(** [Processor(batch_size)] *)
Definition new : Client := mkClient None None [] 0 [] [].

Section Server.

Variable environ : Environ.

(** [psycopg2.connect]: what the n-th call answers. *)
Variable psycopg2_connect : nat -> ConnectArgs -> ConnectError + Handle.

Definition connect_args : ConnectArgs :=
  mkConnectArgs (PSQL_DB environ) "5432"%string
    (fstring (PSQL_USER environ) ++ "@" ++ fstring (PSQL_HOST environ))%string
    (PSQL_PWD environ) (PSQL_HOST environ).

(** The property [cnxn] *)
Definition cnxn (c : Client) : (ConnectError + Handle) * Client :=
  match cnxn_ c with
  | Some h => (inr h, c)
  | None =>
      match psycopg2_connect (List.length (connect_calls c)) connect_args with
      | inr h =>
          (inr h,
           mkClient (Some h) (cursor_ c) (connect_calls c ++ [connect_args])
             (cursors_made c) (closed c)
             (connect_log c
              ++ [InfoConnected (fstring (PSQL_DB environ))
                    (fstring (PSQL_HOST environ))]))
      | inl OperationalError =>
          (inl OperationalError,
           mkClient None (cursor_ c) (connect_calls c ++ [connect_args])
             (cursors_made c) (closed c)
             (connect_log c
              ++ [ErrorFailedToConnect (fstring (PSQL_DB environ))
                    (fstring (PSQL_HOST environ))]))
      | inl e =>
          (inl e,
           mkClient None (cursor_ c) (connect_calls c ++ [connect_args])
             (cursors_made c) (closed c) (connect_log c))
      end
  end.

(** The property [cursor] *)
Definition cursor (c : Client) : (ConnectError + CursorHandle) * Client :=
  match cursor_ c with
  | Some cur => (inr cur, c)
  | None =>
      match cnxn c with
      | (inr h, c') =>
          (inr (h, cursors_made c'),
           mkClient (cnxn_ c') (Some (h, cursors_made c')) (connect_calls c')
             (S (cursors_made c')) (closed c') (connect_log c'))
      | (inl e, c') => (inl e, c')
      end
  end.

(** [__del__] *)
Definition del (c : Client) : Client :=
  match cnxn_ c with
  | Some h =>
      mkClient (cnxn_ c) (cursor_ c) (connect_calls c) (cursors_made c)
        (closed c ++ [h]) (connect_log c)
  | None => c
  end.

End Server.

(** The cursor kept, if any, was made on the connection kept. *)
Definition consistent (c : Client) : Prop :=
  forall cur, cursor_ c = Some cur -> cnxn_ c = Some (fst cur).

(** A server that accepts every call, and one that refuses every call. *)
Definition accepting (n : nat) (args : ConnectArgs) : ConnectError + Handle :=
  inr n.

Definition refusing (n : nat) (args : ConnectArgs) : ConnectError + Handle :=
  inl OperationalError.

Definition some_environ : Environ :=
  mkEnviron (Some "host"%string) (Some "icenet"%string) (Some "etl"%string) None.

End Connection.


Import Examples.

(** * Properties *)

(** ** The grid geometry *)

Section GeometryFacts.

Lemma abs_steps_two (a b : Q) (l : list Q) :
  abs_steps (a :: b :: l) = Qabs (b - a) :: abs_steps (b :: l).
Proof. reflexivity. Qed.

Lemma mean_step_size_defined (l : list Q) :
  (2 <= length l)%nat -> exists step, mean_step_size l = Some step.
Proof.
  destruct l as [|a [|b l]]; simpl; try lia.
  intros _. unfold mean_step_size. rewrite abs_steps_two. eauto.
Qed.

Lemma delta_m_defined (l : list Q) :
  (2 <= length l)%nat ->
  exists step, mean_step_size l = Some step
               /\ delta_m l = Some (1000 * py_int (half * step)%Q).
Proof.
  intros H. destruct (mean_step_size_defined l H) as [step E].
  exists step. split; [assumption|]. unfold delta_m. now rewrite E.
Qed.

Lemma build_records_cons (x : Q) (xs ys : list Q) (dx dy : Z) :
  build_records (x :: xs) ys dx dy =
  map (fun y => mkGeomRecord (centroid_m x) (centroid_m y)
                  (cell_polygon (centroid_m x) (centroid_m y) dx dy)
                  (cell_polygon (centroid_m x) (centroid_m y) dx dy)) ys
  ++ build_records xs ys dx dy.
Proof. reflexivity. Qed.

Lemma build_records_length (xs ys : list Q) (dx dy : Z) :
  length (build_records xs ys dx dy) = (length xs * length ys)%nat.
Proof.
  induction xs as [|x xs IH]; [reflexivity|].
  rewrite build_records_cons, length_app, length_map, IH. reflexivity.
Qed.

Lemma build_records_centroid (xs ys : list Q) (dx dy : Z) (r : GeomRecord) :
  In r (build_records xs ys dx dy) ->
  In (rec_centroid_x r) (map centroid_m xs)
  /\ In (rec_centroid_y r) (map centroid_m ys)
  /\ rec_wkt_6931 r = cell_polygon (rec_centroid_x r) (rec_centroid_y r) dx dy
  /\ rec_wkt_4326 r = rec_wkt_6931 r.
Proof.
  unfold build_records. rewrite in_flat_map.
  intros [x [Hx Hr]]. apply in_map_iff in Hr. destruct Hr as [y [<- Hy]].
  simpl. repeat split; apply in_map; assumption.
Qed.

Lemma row_centroids_nodup (cx : Z) (ys : list Q) :
  NoDup (map centroid_m ys) ->
  NoDup (map (fun y => (cx, centroid_m y)) ys).
Proof.
  induction ys as [|y ys IH]; simpl; intros H; [constructor|].
  inversion H as [|? ? Hn Hd]; subst. constructor; [|auto].
  intros Hin. apply Hn. apply in_map_iff in Hin.
  destruct Hin as [y' [E Hy']].
  assert (E' : centroid_m y' = centroid_m y) by congruence.
  rewrite <- E'. now apply in_map.
Qed.

Lemma build_records_nodup (xs ys : list Q) (dx dy : Z) :
  NoDup (map centroid_m xs) -> NoDup (map centroid_m ys) ->
  NoDup (map centroid_pair (build_records xs ys dx dy)).
Proof.
  intros Hx Hy. induction xs as [|x xs IH]; [constructor|].
  simpl in Hx. inversion Hx as [|? ? Hn Hd]; subst.
  rewrite build_records_cons, map_app, map_map. simpl.
  apply NoDup_app.
  - unfold centroid_pair. simpl. now apply row_centroids_nodup.
  - now apply IH.
  - intros p Hp Hq. apply in_map_iff in Hp. destruct Hp as [y [<- _]].
    apply in_map_iff in Hq. destruct Hq as [r [E Hr]].
    apply build_records_centroid in Hr. destruct Hr as [Hrx _].
    unfold centroid_pair in E. simpl in E. inversion E as [[Ex Ey]].
    apply Hn. now rewrite <- Ex.
Qed.

(** Every cell of the grid is cut with the same two half-widths. *)
Lemma build_records_half_extent (xs ys : list Q) (dx dy : Z) (r : GeomRecord) :
  In r (build_records xs ys dx dy) ->
  half_extent (rec_wkt_6931 r) = Some (dx, dy).
Proof.
  intros H. apply build_records_centroid in H.
  destruct H as [_ [_ [E _]]]. rewrite E. unfold cell_polygon, half_extent.
  f_equal. f_equal.
  - replace (rec_centroid_x r + dx - (rec_centroid_x r - dx)) with (dx * 2) by ring.
    apply Z.div_mul. lia.
  - replace (rec_centroid_y r + dy - (rec_centroid_y r - dy)) with (dy * 2) by ring.
    apply Z.div_mul. lia.
Qed.

End GeometryFacts.

(** C2, as the code has it: two axes of at least two points each give
    [len(x) * len(y)] records, and the centroid pairs of the records are
    pairwise distinct when, on each axis, the centroids truncated to whole
    metres are pairwise distinct. *)
Theorem deriver_cardinality_and_distinct_centroids
  (centroids_x_km centroids_y_km : list Q) :
  (2 <= length centroids_x_km)%nat ->
  (2 <= length centroids_y_km)%nat ->
  exists records,
    geometry_records centroids_x_km centroids_y_km = Some records
    /\ length records = (length centroids_x_km * length centroids_y_km)%nat
    /\ (NoDup (map centroid_m centroids_x_km) ->
        NoDup (map centroid_m centroids_y_km) ->
        NoDup (map centroid_pair records)).
Proof.
  intros Hx Hy.
  destruct (delta_m_defined _ Hx) as [sx [_ Ex]].
  destruct (delta_m_defined _ Hy) as [sy [_ Ey]].
  unfold geometry_records. rewrite Ex, Ey.
  eexists. split; [reflexivity|]. split.
  - apply build_records_length.
  - apply build_records_nodup.
Qed.

Lemma deriver_cardinality_and_distinct_centroids_witness :
  exists records,
    geometry_records axis_10km axis_10km = Some records
    /\ length records = 4%nat
    /\ NoDup (map centroid_pair records).
Proof.
  destruct (deriver_cardinality_and_distinct_centroids axis_10km axis_10km)
    as [records [E [L N]]]; [simpl; lia | simpl; lia |].
  exists records. split; [exact E|]. split; [exact L|].
  apply N; vm_compute; repeat constructor; simpl; intuition discriminate.
Defined.

(** C2 as stated fails: two x centroids less than a metre apart give the
    same centroid pair twice. *)
Lemma deriver_centroids_not_distinct :
  (2 <= length close_axis)%nat /\ (2 <= length unit_axis)%nat
  /\ ~ (exists records,
          geometry_records close_axis unit_axis = Some records
          /\ length records = (length close_axis * length unit_axis)%nat
          /\ NoDup (map centroid_pair records)).
Proof.
  split; [simpl; lia|]. split; [simpl; lia|].
  intros [records [E [_ N]]].
  vm_compute in E. inversion E; subst. clear E.
  vm_compute in N. inversion N as [|? ? Hn _]; subst.
  apply Hn. simpl. auto.
Qed.

(** C3: on the 25 km grid the code cuts cells with a half-width of
    12000 m, where the mean step in metres, halved and truncated, is
    12500 m; the half-width is the same for every cell. *)
Theorem half_width_truncated_before_metres :
  delta_m axis_25km = Some 12000
  /\ spec_half_width axis_25km = Some 12500
  /\ exists records,
       geometry_records axis_25km axis_25km = Some records
       /\ Forall (fun r => half_extent (rec_wkt_6931 r) = Some (12000, 12000))
            records.
Proof.
  split; [reflexivity|]. split; [reflexivity|].
  eexists. split; [reflexivity|].
  apply Forall_forall. intros r Hr.
  exact (build_records_half_extent axis_25km axis_25km 12000 12000 r Hr).
Qed.

(** ** Running the monad *)

Ltac run_primitives :=
  unfold bind, logging_info, logging_error, logging, cnxn_commit,
    time_monotonic, set_xr, self_xr, self_batch_size, ret, raise; simpl.

Section MonadFacts.

Lemma exec_script_app (qs qs' : list Sql) (db : DB) :
  exec_script (qs ++ qs') db =
  match exec_script qs db with
  | inl e => inl e
  | inr db' => exec_script qs' db'
  end.
Proof.
  revert db. induction qs as [|q qs IH]; intros db; simpl; [reflexivity|].
  destruct (exec_sql q db); [reflexivity | apply IH].
Qed.

Lemma exec_script_one (q : Sql) (db : DB) :
  exec_script [q] db = exec_sql q db.
Proof. simpl. now destruct (exec_sql q db). Qed.

Context {A : Type} (t : TableKey) (insert : A -> Sql).

Lemma for_each_execute (l : list A) (s : State) (db' : DB) :
  exec_script (map insert l) (cnxn s) = inr db' ->
  for_each (fun record => cursor_execute [insert record]) l s =
  (Return tt,
   mkState (batch_size s) (xr s) db' (committed s)
     (executed s ++ map insert l) (log s) (monotonic s) (ticks s)).
Proof.
  revert s. induction l as [|a l IH]; intros s H; simpl in *.
  - injection H as <-. rewrite app_nil_r. now destruct s.
  - unfold bind, cursor_execute. rewrite exec_script_one.
    destruct (exec_sql (insert a) (cnxn s)) as [e|db1]; [discriminate|].
    rewrite IH by exact H. simpl. now rewrite <- app_assoc.
Qed.

Lemma batch_body_run (n_batches : Z) (start_time : Q) (idx : Z)
  (b : list A) (s : State) (db' : DB) :
  exec_script (map insert b) (cnxn s) = inr db' ->
  batch_body t insert n_batches start_time idx b s =
  (Return tt,
   mkState (batch_size s) (xr s) db' db'
     (executed s ++ map insert b)
     (log s ++ [INFO (BatchPreparing t idx n_batches (length b));
                INFO (BatchDone t idx n_batches (length b)
                        (human_readable
                           (eta (monotonic s (ticks s) - start_time)%Q
                              n_batches idx)))])
     (monotonic s) (S (ticks s))).
Proof.
  intros H. unfold batch_body, bind at 1. simpl.
  unfold bind at 1.
  rewrite (for_each_execute b _ db') by exact H.
  run_primitives. now rewrite <- app_assoc.
Qed.

Lemma for_enumerate_run (n_batches : Z) (start_time : Q) (bl : list (list A)) :
  forall (idx : Z) (s : State) (db' : DB),
  exec_script (map insert (concat bl)) (cnxn s) = inr db' ->
  for_enumerate (batch_body t insert n_batches start_time) idx bl s =
  (Return tt,
   mkState (batch_size s) (xr s) db'
     (match bl with [] => committed s | _ => db' end)
     (executed s ++ map insert (concat bl))
     (log s ++ batch_reports t (monotonic s) n_batches start_time idx
                 (ticks s) bl)
     (monotonic s) (ticks s + length bl)).
Proof.
  induction bl as [|b bl IH]; intros idx s db' H; simpl in *.
  - injection H as <-. rewrite !app_nil_r, Nat.add_0_r. now destruct s.
  - rewrite map_app, exec_script_app in H.
    destruct (exec_script (map insert b) (cnxn s)) as [e|db1] eqn:E;
      [discriminate|].
    unfold bind. rewrite (batch_body_run _ _ _ _ _ db1 E).
    rewrite (IH _ _ db') by exact H. simpl.
    rewrite map_app, <- !app_assoc, Nat.add_succ_r. simpl.
    destruct bl; simpl in *; [injection H as <-|]; reflexivity.
Qed.

End MonadFacts.

(** ** Batches *)

Section BatchFacts.

Context {A : Type}.

Lemma take_chunk_spec (l : list A) :
  forall k c r, take_chunk k l = (c, r) ->
  l = c ++ r /\ length c = Nat.min (S k) (length l).
Proof.
  induction l as [|a l IH]; intros k c r H; simpl in H.
  - injection H as <- <-. split; reflexivity.
  - destruct k as [|k].
    + injection H as <- <-. split; [reflexivity|]. simpl. reflexivity.
    + destruct (take_chunk k l) as [c' r'] eqn:E.
      injection H as <- <-. destruct (IH _ _ _ E) as [-> L].
      split; [reflexivity|]. simpl length. rewrite L.
      rewrite length_app. lia.
Qed.

Lemma batches_fuel_concat (k fuel : nat) :
  forall l : list A, (length l <= fuel)%nat ->
  concat (batches_fuel fuel k l) = l.
Proof.
  induction fuel as [|fuel IH]; intros l H.
  - destruct l; [reflexivity | simpl in H; lia].
  - destruct l as [|a l]; [reflexivity|].
    cbn [batches_fuel]. destruct (take_chunk k (a :: l)) as [c r] eqn:E.
    destruct (take_chunk_spec _ _ _ _ E) as [El Lc].
    simpl concat. rewrite IH; [now rewrite El|].
    assert (length (a :: l) = (length c + length r)%nat)
      by (rewrite El at 1; apply length_app).
    simpl length in *. lia.
Qed.

Lemma batches_concat (l : list A) (k : nat) :
  concat (batches l (S k)) = l.
Proof. unfold batches. now apply batches_fuel_concat. Qed.

Lemma batches_nil (size : nat) : batches (@nil A) size = [].
Proof. now destruct size. Qed.

Lemma batches_cons (a : A) (l : list A) (k : nat) :
  batches (a :: l) (S k) <> [].
Proof.
  unfold batches. cbn [length batches_fuel].
  destruct (take_chunk k (a :: l)). discriminate.
Qed.

Lemma chunks_zero (k : nat) : chunks 0 k = 0.
Proof. unfold chunks. simpl. reflexivity. Qed.

Lemma chunks_step (n k : nat) :
  (0 < n)%nat -> chunks n k = 1 + chunks (n - Nat.min (S k) n) k.
Proof.
  intros Hn. unfold chunks.
  destruct (Nat.le_gt_cases n (S k)) as [Hle|Hgt].
  - rewrite Nat.min_r by lia. rewrite Nat.sub_diag. simpl Z.of_nat at 3.
    replace (- 0) with 0 by reflexivity. rewrite Z.div_0_l by lia.
    assert (E : - Z.of_nat n / Z.of_nat (S k) = -1).
    { symmetry. apply Z.div_unique with (r := Z.of_nat (S k) - Z.of_nat n); lia. }
    rewrite E. reflexivity.
  - rewrite Nat.min_l by lia.
    replace (- Z.of_nat n)
      with (- Z.of_nat (n - S k) + (-1) * Z.of_nat (S k)) by lia.
    rewrite Z.div_add by lia. lia.
Qed.

Lemma batches_fuel_length (k fuel : nat) :
  forall l : list A, (length l <= fuel)%nat ->
  Z.of_nat (length (batches_fuel fuel k l)) = chunks (length l) k.
Proof.
  induction fuel as [|fuel IH]; intros l H.
  - destruct l; [now rewrite chunks_zero | simpl in H; lia].
  - destruct l as [|a l]; [now rewrite chunks_zero|].
    cbn [batches_fuel]. destruct (take_chunk k (a :: l)) as [c r] eqn:E.
    destruct (take_chunk_spec _ _ _ _ E) as [El Lc].
    assert (L : length (a :: l) = (length c + length r)%nat)
      by (rewrite El at 1; apply length_app).
    rewrite chunks_step by (simpl; lia).
    replace (length (a :: l) - Nat.min (S k) (length (a :: l)))%nat
      with (length r) by lia.
    simpl length at 1. rewrite Nat2Z.inj_succ, IH; [lia|].
    simpl length in *. lia.
Qed.

End BatchFacts.

Lemma Qceiling_quotient (n k : nat) :
  Qceiling (inject_Z (Z.of_nat n) / inject_Z (Z.of_nat (S k))) = chunks n k.
Proof.
  unfold Qceiling, chunks. f_equal.
  rewrite Zdiv_Qdiv. apply Qfloor_comp.
  rewrite inject_Z_opp. unfold Qdiv. ring.
Qed.

Lemma batches_length {A} (l : list A) (k : nat) :
  Z.of_nat (length (batches l (S k))) =
  Qceiling (inject_Z (Z.of_nat (length l)) / inject_Z (Z.of_nat (S k))).
Proof.
  rewrite Qceiling_quotient. unfold batches. now apply batches_fuel_length.
Qed.

(** ** The batch loop and the two upserting methods *)

Section LoopFacts.

Context {A : Type} (t : TableKey) (insert : A -> Sql).

Lemma insert_batches_run (records : list A) (s : State) (k : nat) (db' : DB) :
  batch_size s = S k ->
  exec_script (map insert records) (cnxn s) = inr db' ->
  insert_batches t insert records s =
  (Return tt,
   mkState (S k) (xr s) db'
     (match records with [] => committed s | _ => db' end)
     (executed s ++ map insert records)
     (log s ++ batch_reports t (monotonic s)
                 (Qceiling (inject_Z (Z.of_nat (length records))
                            / inject_Z (Z.of_nat (S k))))
                 (monotonic s (ticks s)) 1 (S (ticks s))
                 (batches records (S k)))
     (monotonic s) (S (ticks s) + length (batches records (S k)))).
Proof.
  intros Hk H. destruct s as [size x cn cm ex lg clk tk].
  simpl in Hk, H. subst size.
  unfold insert_batches, count_batches. run_primitives.
  rewrite for_enumerate_run with (db' := db'); simpl;
    [|now rewrite batches_concat].
  rewrite batches_concat.
  destruct records as [|a l].
  - now rewrite batches_nil.
  - pose proof (batches_cons a l k) as Hne.
    destruct (batches (a :: l) (S k)); [contradiction|reflexivity].
Qed.

End LoopFacts.

Lemma insert_cells_run (records : list GeomRecord) :
  forall (db : DB) (t : Table CellRow),
  cell db = Some t ->
  exec_script (map InsertCell records) db =
  inr (mkDB (Some (upsert_cells records t)) (prediction db)
         (prediction_latest db)).
Proof.
  induction records as [|r records IH]; intros db t H; simpl.
  - rewrite <- H. now destruct db.
  - rewrite H. rewrite (IH _ (insert_cell r t)); reflexivity.
Qed.

Lemma insert_predictions_run (records : list MergedRow) :
  forall (db : DB) (t : Table PredictionRow),
  prediction db = Some t ->
  exec_script (map prediction_insert records) db =
  inr (mkDB (cell db) (Some (upsert_predictions records t))
         (prediction_latest db)).
Proof.
  induction records as [|r records IH]; intros db t H; simpl.
  - rewrite <- H. now destruct db.
  - rewrite H. rewrite (IH _ (insert_prediction (date_of (r_time (k_row (m_row r))))
                               (r_leadtime (k_row (m_row r))) (m_cell_id r)
                               (r_mean (k_row (m_row r)))
                               (r_stddev (k_row (m_row r))) t)); reflexivity.
Qed.

Lemma create_cell_run (db : DB) :
  exec_script [CreateTableCellIfNotExists] db =
  inr (mkDB (Some (ensured (cell db))) (prediction db) (prediction_latest db)).
Proof. simpl. destruct db as [[c|] p v]; reflexivity. Qed.

(** A run of [update_geometries] on a loaded grid. *)
Lemma update_geometries_run (s : State) (ds : Dataset)
  (records : list GeomRecord) (k : nat) :
  xr s = Some ds ->
  geometry_records (ds_xc ds) (ds_yc ds) = Some records ->
  batch_size s = S k ->
  update_geometries s =
  (Return tt,
   mkState (S k) (Some ds)
     (with_cells records (cnxn s)) (with_cells records (cnxn s))
     (executed s ++ CreateTableCellIfNotExists :: map InsertCell records)
     (log s
      ++ [INFO (EnsuringTableExists geom); INFO (EnsuredTableExists geom);
          INFO IdentifyingGeometries;
          INFO (IdentifiedGeometries (length records));
          INFO (EnsuringContainsAll geom (length records))]
      ++ batch_reports geom (monotonic s)
           (Qceiling (inject_Z (Z.of_nat (length records))
                      / inject_Z (Z.of_nat (S k))))
           (monotonic s (ticks s)) 1 (S (ticks s)) (batches records (S k))
      ++ [INFO (EnsuredContainsAll geom)])
     (monotonic s) (S (ticks s) + length (batches records (S k)))).
Proof.
  intros Hx Hr Hk. unfold update_geometries.
  unfold bind at 1. unfold logging_info at 1, logging at 1.
  unfold bind at 1. unfold cursor_execute at 1. cbn [cnxn].
  rewrite create_cell_run.
  run_primitives. rewrite Hx, Hr. simpl.
  erewrite insert_batches_run;
    [| exact Hk | simpl; apply insert_cells_run; reflexivity].
  simpl. unfold with_cells.
  repeat rewrite <- app_assoc. simpl.
  destruct records; reflexivity.
Qed.

(** ** Upserting cells *)

Section CellFacts.

Lemma insert_cell_skip (r : GeomRecord) (t : Table CellRow) :
  has_centroid r (rows t) -> rows (insert_cell r t) = rows t.
Proof.
  intros [c [Hc [Ex Ey]]]. unfold insert_cell.
  assert (E : existsb (cell_conflict (cell_values (next_id t) r)) (rows t) = true).
  { apply existsb_exists. exists c. split; [assumption|].
    unfold cell_conflict. simpl. rewrite Ex, Ey, !Z.eqb_refl.
    apply orb_true_r. }
  now rewrite E.
Qed.

Lemma insert_cell_extends (r : GeomRecord) (t : Table CellRow) :
  exists added, rows (insert_cell r t) = rows t ++ added.
Proof.
  unfold insert_cell.
  destruct (existsb _ (rows t)); simpl.
  - exists []. now rewrite app_nil_r.
  - eauto.
Qed.

Lemma insert_cell_ids_below (r : GeomRecord) (t : Table CellRow) :
  ids_below t -> ids_below (insert_cell r t).
Proof.
  unfold ids_below, insert_cell. intros H.
  assert (H' : Forall (fun c => cell_id c < next_id t + 1) (rows t)).
  { eapply Forall_impl; [|exact H]. simpl. intros. lia. }
  destruct (existsb _ (rows t)); simpl; [assumption|].
  apply Forall_app. split; [assumption|].
  constructor; [simpl; lia | constructor].
Qed.

(** With every key below the sequence, the key never conflicts: a record
    is skipped only for its centroid. *)
Lemma insert_cell_present (r : GeomRecord) (t : Table CellRow) :
  ids_below t -> has_centroid r (rows (insert_cell r t)).
Proof.
  unfold ids_below, insert_cell. intros H.
  destruct (existsb _ (rows t)) eqn:E; simpl.
  - apply existsb_exists in E. destruct E as [c [Hc Hconf]].
    exists c. split; [assumption|].
    rewrite Forall_forall in H. specialize (H c Hc).
    unfold cell_conflict in Hconf. simpl in Hconf.
    apply orb_true_iff in Hconf. destruct Hconf as [Hid|Hxy].
    + apply Z.eqb_eq in Hid. lia.
    + apply andb_true_iff in Hxy. destruct Hxy as [Hx Hy].
      apply Z.eqb_eq in Hx, Hy. auto.
  - exists (cell_values (next_id t) r). split.
    + apply in_or_app. right. simpl. auto.
    + split; reflexivity.
Qed.

Lemma has_centroid_app (r : GeomRecord) (rs added : list CellRow) :
  has_centroid r rs -> has_centroid r (rs ++ added).
Proof.
  intros [c [Hc E]]. exists c. split; [|assumption].
  apply in_or_app. now left.
Qed.

Lemma upsert_cells_cons (r : GeomRecord) (records : list GeomRecord)
  (t : Table CellRow) :
  upsert_cells (r :: records) t = upsert_cells records (insert_cell r t).
Proof. reflexivity. Qed.

Lemma upsert_cells_extends (records : list GeomRecord) :
  forall t, exists added, rows (upsert_cells records t) = rows t ++ added.
Proof.
  induction records as [|r records IH]; intros t.
  - exists []. now rewrite app_nil_r.
  - rewrite upsert_cells_cons.
    destruct (IH (insert_cell r t)) as [a1 E1].
    destruct (insert_cell_extends r t) as [a2 E2].
    exists (a2 ++ a1). now rewrite E1, E2, app_assoc.
Qed.

Lemma upsert_cells_ids_below (records : list GeomRecord) :
  forall t, ids_below t -> ids_below (upsert_cells records t).
Proof.
  induction records as [|r records IH]; intros t H; [assumption|].
  rewrite upsert_cells_cons. apply IH. now apply insert_cell_ids_below.
Qed.

Lemma upsert_cells_present (records : list GeomRecord) :
  forall t, ids_below t ->
  Forall (fun r => has_centroid r (rows (upsert_cells records t))) records.
Proof.
  induction records as [|r records IH]; intros t H; [constructor|].
  assert (Hi := insert_cell_ids_below r t H).
  constructor.
  - rewrite upsert_cells_cons.
    destruct (upsert_cells_extends records (insert_cell r t)) as [added E].
    rewrite E. apply has_centroid_app. now apply insert_cell_present.
  - rewrite Forall_forall. intros r' Hr'. rewrite upsert_cells_cons.
    specialize (IH _ Hi). rewrite Forall_forall in IH. now apply IH.
Qed.

Lemma upsert_cells_skip (records : list GeomRecord) :
  forall t,
  Forall (fun r => has_centroid r (rows t)) records ->
  rows (upsert_cells records t) = rows t.
Proof.
  induction records as [|r records IH]; intros t H; [reflexivity|].
  inversion H as [|? ? Hr Hrs]; subst.
  assert (E := insert_cell_skip r t Hr).
  rewrite upsert_cells_cons, IH; [assumption|].
  now rewrite E.
Qed.

Lemma upsert_cells_twice (records : list GeomRecord) (t : Table CellRow) :
  ids_below t ->
  rows (upsert_cells records (upsert_cells records t)) =
  rows (upsert_cells records t).
Proof.
  intros H. apply upsert_cells_skip. now apply upsert_cells_present.
Qed.

Lemma ensured_ids_below (db : DB) :
  cell_ids_drawn db -> ids_below (ensured (cell db)).
Proof.
  unfold cell_ids_drawn, ids_below. intros H.
  destruct (cell db) as [t|]; simpl; [now apply H | constructor].
Qed.

(** [update_geometries] returns only on a loaded grid with a step size
    on each axis and a batch size other than zero. *)
Lemma update_geometries_returns (s s1 : State) :
  update_geometries s = (Return tt, s1) ->
  exists ds records k,
    xr s = Some ds
    /\ geometry_records (ds_xc ds) (ds_yc ds) = Some records
    /\ batch_size s = S k.
Proof.
  intros H. destruct s as [size x cn cm ex lg clk tk].
  unfold update_geometries in H.
  unfold bind at 1 in H. unfold logging_info at 1, logging at 1 in H.
  unfold bind at 1 in H. unfold cursor_execute at 1 in H. cbn [cnxn] in H.
  rewrite create_cell_run in H.
  destruct x as [ds|]; [|run_primitives; discriminate].
  destruct (geometry_records (ds_xc ds) (ds_yc ds)) as [records|] eqn:Er.
  - destruct size as [|k].
    + revert H. run_primitives. rewrite Er. simpl.
      unfold insert_batches, count_batches. run_primitives. discriminate.
    + exists ds, records, k. auto.
  - revert H. run_primitives. rewrite Er. simpl. discriminate.
Qed.

End CellFacts.

(** C4: a second run of [update_geometries] on the same grid returns and
    leaves the rows of table [cell] as the first run left them; in both
    runs the rows already there stay as they are, ahead of any new row. *)
Theorem sync_geometries_idempotent (s s1 : State) :
  cell_ids_drawn (cnxn s) ->
  update_geometries s = (Return tt, s1) ->
  exists s2,
    update_geometries s1 = (Return tt, s2)
    /\ cell_rows (committed s2) = cell_rows (committed s1)
    /\ length (cell_rows (committed s2)) = length (cell_rows (committed s1))
    /\ exists added, cell_rows (committed s1) = cell_rows (cnxn s) ++ added.
Proof.
  intros Hids H.
  destruct (update_geometries_returns _ _ H) as [ds [records [k [Hx [Hr Hk]]]]].
  rewrite (update_geometries_run s ds records k Hx Hr Hk) in H.
  injection H as <-.
  eexists. split.
  - apply (update_geometries_run _ ds records k); [reflexivity|exact Hr|reflexivity].
  - cbn [committed cnxn]. unfold cell_rows, with_cells. cbn [cell rows_of ensured].
    assert (E := upsert_cells_twice records _ (ensured_ids_below _ Hids)).
    split; [exact E|]. split; [now rewrite E|].
    destruct (upsert_cells_extends records (ensured (cell (cnxn s)))) as [added Ea].
    destruct (cell (cnxn s)) as [t|]; simpl in *; eauto.
Qed.

Lemma sync_geometries_idempotent_witness :
  exists s1 s2,
    update_geometries (loaded 3 two_leadtimes empty_db) = (Return tt, s1)
    /\ update_geometries s1 = (Return tt, s2)
    /\ cell_rows (committed s2) = cell_rows (committed s1)
    /\ length (cell_rows (committed s1)) = 4%nat.
Proof.
  pose (s1 := snd (update_geometries (loaded 3 two_leadtimes empty_db))).
  assert (H : update_geometries (loaded 3 two_leadtimes empty_db)
              = (Return tt, s1)) by (vm_compute; reflexivity).
  destruct (sync_geometries_idempotent (loaded 3 two_leadtimes empty_db) s1)
    as [s2 [H2 [E _]]].
  - intros t Ht. discriminate.
  - exact H.
  - exists s1, s2. split; [exact H|]. split; [exact H2|]. split; [exact E|].
    vm_compute. reflexivity.
Defined.

(** ** Upserting predictions *)

Lemma create_prediction_run (db : DB) (ct : Table CellRow) :
  cell db = Some ct ->
  exec_script [CreateTablePredictionIfNotExists] db =
  inr (mkDB (cell db) (Some (ensured (prediction db))) (prediction_latest db)).
Proof.
  intros H. destruct db as [c [p|] v]; simpl in *; subst c; reflexivity.
Qed.

(** A run of [update_predictions] on a loaded forecast, the table of
    cells being there. *)
Lemma update_predictions_run (s : State) (ds : Dataset) (ct : Table CellRow)
  (k : nat) :
  xr s = Some ds ->
  cell (cnxn s) = Some ct ->
  batch_size s = S k ->
  update_predictions s =
  (Return tt,
   mkState (S k) (Some ds)
     (with_predictions (resolved ds (rows ct)) (cnxn s))
     (with_predictions (resolved ds (rows ct)) (cnxn s))
     (executed s ++ CreateTablePredictionIfNotExists :: SelectCells
        :: map prediction_insert (resolved ds (rows ct)))
     (log s
      ++ [INFO (EnsuringTableExists predictions);
          INFO (EnsuredTableExists predictions);
          INFO LoadingPredictions;
          INFO (LoadedPredictions (length (with_metres (df_predictions ds))));
          INFO IdentifyingCellIds;
          INFO (IdentifiedCellIds (length (resolved ds (rows ct))));
          INFO (EnsuringContainsAll predictions (length (resolved ds (rows ct))))]
      ++ batch_reports predictions (monotonic s)
           (n_batches_of (length (resolved ds (rows ct))) (S k))
           (monotonic s (ticks s)) 1 (S (ticks s))
           (batches (resolved ds (rows ct)) (S k))
      ++ [INFO (EnsuredContainsAll predictions)])
     (monotonic s)
     (S (ticks s) + length (batches (resolved ds (rows ct)) (S k)))).
Proof.
  intros Hx Hc Hk. unfold update_predictions.
  unfold bind at 1. unfold logging_info at 1, logging at 1.
  unfold bind at 1. unfold cursor_execute at 1. cbn [cnxn].
  rewrite (create_prediction_run _ ct Hc).
  run_primitives. rewrite Hx. simpl. unfold read_cells. simpl. rewrite Hc.
  fold (resolved ds (rows ct)).
  erewrite insert_batches_run;
    [| exact Hk | simpl; apply insert_predictions_run; reflexivity].
  simpl. unfold with_predictions, n_batches_of. rewrite Hc.
  repeat rewrite <- app_assoc. simpl.
  destruct (resolved ds (rows ct)); reflexivity.
Qed.

(** ** Progress reports *)





(** ** What reaches the table of predictions *)

Section FrameFacts.

Lemma to_dataframe_row (ds : Dataset) (r : Row) :
  In r (to_dataframe ds) ->
  exists t l x y,
    r_mean r = ds_mean ds t l x y /\ r_stddev r = ds_stddev ds t l x y.
Proof.
  unfold to_dataframe. intros H.
  apply in_flat_map in H. destruct H as [t [_ H]].
  apply in_flat_map in H. destruct H as [l [_ H]].
  apply in_flat_map in H. destruct H as [x [_ H]].
  apply in_map_iff in H. destruct H as [y [<- _]].
  exists (fst t), (fst l), (fst x), (fst y). split; reflexivity.
Qed.

(** A row that survives the filter has a strictly positive mean and a
    standard deviation. *)
Lemma df_predictions_row (ds : Dataset) (r : Row) :
  In r (df_predictions ds) ->
  positive (r_mean r) = true /\ r_stddev r <> None.
Proof.
  unfold df_predictions, dropna. intros H.
  apply filter_In in H. destruct H as [H Hn].
  apply andb_true_iff in Hn. destruct Hn as [Hm Hs].
  apply to_dataframe_row in H. destruct H as [t [l [x [y [Em Es]]]]].
  simpl in Em, Es. split.
  - destruct (positive (ds_mean ds t l x y)) eqn:P.
    + now rewrite Em.
    + rewrite Em in Hm. discriminate.
  - intros E. rewrite E in Hs. discriminate.
Qed.

Lemma with_metres_row (df : list Row) (k : KeyedRow) :
  In k (with_metres df) -> In (k_row k) df.
Proof.
  unfold with_metres. intros H. apply in_map_iff in H.
  destruct H as [[r [x y]] [<- H]]. simpl.
  now apply in_combine_l in H.
Qed.

Lemma merge_left_row (left : list KeyedRow) (right : list CellKey)
  (m : MergedRow) :
  In m (merge_left left right) -> In (m_row m) left.
Proof.
  unfold merge_left. intros H. apply in_flat_map in H.
  destruct H as [k [Hk H]].
  destruct (filter (key_match k) right) as [|c ms].
  - destruct H as [<-|[]]. exact Hk.
  - apply in_map_iff in H. destruct H as [[[id cx] cy] [<- _]]. exact Hk.
Qed.

Lemma resolved_row (ds : Dataset) (cells : list CellRow) (m : MergedRow) :
  In m (resolved ds cells) -> In (k_row (m_row m)) (df_predictions ds).
Proof.
  intros H. apply with_metres_row. now apply merge_left_row in H.
Qed.

Lemma resolved_insert_complete (ds : Dataset) (cells : list CellRow)
  (m : MergedRow) :
  In m (resolved ds cells) -> complete_insert (prediction_insert m).
Proof.
  intros H. apply resolved_row in H. apply df_predictions_row in H.
  exact H.
Qed.

End FrameFacts.

Section PredictionFacts.

Lemma create_prediction_fails (db : DB) :
  cell db = None -> prediction db = None ->
  exec_script [CreateTablePredictionIfNotExists] db = inl UndefinedTable.
Proof. intros Hc Hp. simpl. now rewrite Hc, Hp. Qed.

Lemma create_prediction_skips (db : DB) (pt : Table PredictionRow) :
  prediction db = Some pt ->
  exec_script [CreateTablePredictionIfNotExists] db = inr db.
Proof. intros Hp. simpl. now rewrite Hp. Qed.

Lemma update_predictions_no_cells (s : State) :
  cell (cnxn s) = None ->
  exists e lg qs,
    update_predictions s =
    (Raise e,
     mkState (batch_size s) (xr s) (cnxn s)
       (match prediction (cnxn s) with Some _ => cnxn s | None => committed s end)
       (executed s ++ qs) lg (monotonic s) (ticks s))
    /\ incl qs [CreateTablePredictionIfNotExists; SelectCells].
Proof.
  intros Hc. unfold update_predictions.
  unfold bind at 1. unfold logging_info at 1, logging at 1.
  unfold bind at 1. unfold cursor_execute at 1. cbn [cnxn].
  destruct (prediction (cnxn s)) as [pt|] eqn:Hp.
  - rewrite (create_prediction_skips _ pt Hp).
    run_primitives.
    destruct (xr s) as [ds|] eqn:Hx.
    + unfold read_cells. simpl. rewrite Hc.
      eexists _, _, [_; _]. split; [rewrite <- app_assoc; reflexivity|].
      apply incl_refl.
    + eexists _, _, [_]. split; [reflexivity|].
      intros q [<-|[]]; simpl; auto.
  - rewrite (create_prediction_fails _ Hc Hp).
    eexists _, _, [_]. split; [reflexivity|].
    intros q [<-|[]]; simpl; auto.
Qed.

Lemma update_predictions_unloaded (s : State) (ct : Table CellRow) :
  cell (cnxn s) = Some ct -> xr s = None ->
  exists e lg,
    update_predictions s =
    (Raise e,
     mkState (batch_size s) None (with_predictions [] (cnxn s))
       (with_predictions [] (cnxn s))
       (executed s ++ [CreateTablePredictionIfNotExists]) lg
       (monotonic s) (ticks s)).
Proof.
  intros Hc Hx. unfold update_predictions.
  unfold bind at 1. unfold logging_info at 1, logging at 1.
  unfold bind at 1. unfold cursor_execute at 1. cbn [cnxn].
  rewrite (create_prediction_run _ ct Hc).
  run_primitives. rewrite Hx.
  unfold with_predictions. rewrite Hc. eexists _, _. reflexivity.
Qed.

Lemma update_predictions_zero_size (s : State) (ds : Dataset)
  (ct : Table CellRow) :
  cell (cnxn s) = Some ct -> xr s = Some ds -> batch_size s = O ->
  exists e lg,
    update_predictions s =
    (Raise e,
     mkState O (Some ds) (with_predictions [] (cnxn s))
       (with_predictions [] (cnxn s))
       (executed s ++ [CreateTablePredictionIfNotExists; SelectCells]) lg
       (monotonic s) (ticks s)).
Proof.
  intros Hc Hx Hk. unfold update_predictions.
  unfold bind at 1. unfold logging_info at 1, logging at 1.
  unfold bind at 1. unfold cursor_execute at 1. cbn [cnxn].
  rewrite (create_prediction_run _ ct Hc).
  run_primitives. rewrite Hx.
  unfold read_cells. simpl. rewrite Hc.
  unfold insert_batches, count_batches. run_primitives.
  rewrite Hk. rewrite <- app_assoc.
  unfold with_predictions. rewrite Hc. eexists _, _. reflexivity.
Qed.


Lemma upsert_predictions_cons (m : MergedRow) (records : list MergedRow)
  (t : Table PredictionRow) :
  upsert_predictions (m :: records) t =
  upsert_predictions records
    (insert_prediction (date_of (r_time (k_row (m_row m))))
       (r_leadtime (k_row (m_row m))) (m_cell_id m)
       (r_mean (k_row (m_row m))) (r_stddev (k_row (m_row m))) t).
Proof. reflexivity. Qed.

Lemma insert_prediction_rows (d l : Z) (c : option Z) (m s : option Q)
  (t : Table PredictionRow) (p : PredictionRow) :
  In p (rows (insert_prediction d l c m s t)) ->
  In p (rows t) \/ p = mkPrediction (next_id t) d l c m s.
Proof.
  unfold insert_prediction. destruct (existsb _ (rows t)); simpl; [auto|].
  intros H. apply in_app_or in H. destruct H as [H|[H|[]]]; auto.
Qed.

(** A row of the table after the upsert was there before or carries the
    mean and the standard deviation of one of the records. *)
Lemma upsert_predictions_rows (records : list MergedRow) :
  forall (t : Table PredictionRow) (p : PredictionRow),
  In p (rows (upsert_predictions records t)) ->
  In p (rows t)
  \/ exists m, In m records
               /\ mean p = r_mean (k_row (m_row m))
               /\ stddev p = r_stddev (k_row (m_row m)).
Proof.
  induction records as [|m records IH]; intros t p H; [now left|].
  rewrite upsert_predictions_cons in H. apply IH in H.
  destruct H as [H|[m' [Hm' E]]].
  - apply insert_prediction_rows in H. destruct H as [H| ->]; [now left|].
    right. exists m. simpl. auto.
  - right. exists m'. simpl. auto.
Qed.


Lemma update_predictions_effect (s : State) :
  exists records qs,
    (forall m, In m records -> complete_insert (prediction_insert m))
    /\ rows_of (prediction (cnxn (after update_predictions s))) =
       rows (upsert_predictions records (ensured (prediction (cnxn s))))
    /\ (committed (after update_predictions s) = committed s
        \/ committed (after update_predictions s)
           = cnxn (after update_predictions s))
    /\ executed (after update_predictions s) = executed s ++ qs
    /\ (forall q, In q qs -> complete_insert q).
Proof.
  unfold after.
  destruct (cell (cnxn s)) as [ct|] eqn:Hc.
  - destruct (xr s) as [ds|] eqn:Hx.
    + destruct (batch_size s) as [|k] eqn:Hk.
      * destruct (update_predictions_zero_size s ds ct Hc Hx Hk) as [e [lg ->]].
        exists [], [CreateTablePredictionIfNotExists; SelectCells].
        cbn [snd cnxn committed executed].
        split; [intros m []|]. split; [reflexivity|].
        split; [now right|]. split; [reflexivity|].
        intros q [<-|[<-|[]]]; exact I.
      * rewrite (update_predictions_run s ds ct k Hx Hc Hk).
        exists (resolved ds (rows ct)).
        exists (CreateTablePredictionIfNotExists :: SelectCells
                  :: map prediction_insert (resolved ds (rows ct))).
        cbn [snd cnxn committed executed].
        split; [apply resolved_insert_complete|].
        split; [reflexivity|]. split; [now right|]. split; [reflexivity|].
        intros q [<-|[<-|H]]; try exact I.
        apply in_map_iff in H. destruct H as [m [<- Hm]].
        now apply resolved_insert_complete in Hm.
    + destruct (update_predictions_unloaded s ct Hc Hx) as [e [lg ->]].
      exists [], [CreateTablePredictionIfNotExists].
      cbn [snd cnxn committed executed].
      split; [intros m []|]. split; [reflexivity|].
      split; [now right|]. split; [reflexivity|].
      intros q [<-|[]]; exact I.
  - destruct (update_predictions_no_cells s Hc) as [e [lg [qs [-> Hqs]]]].
    exists [], qs. cbn [snd cnxn committed executed].
    split; [intros m []|].
    split; [destruct (prediction (cnxn s)); reflexivity|].
    split; [destruct (prediction (cnxn s)); auto|]. split; [reflexivity|].
    intros q Hq. apply Hqs in Hq. destruct Hq as [<-|[<-|[]]]; exact I.
Qed.

End PredictionFacts.

Lemma rows_ensured {R} (t : option (Table R)) : rows (ensured t) = rows_of t.
Proof. now destruct t. Qed.

(** A row of [prediction] after [update_predictions], whatever the
    outcome, was there before or comes from a complete insert. *)
Lemma update_predictions_rows (s : State) (p : PredictionRow) :
  In p (rows_of (prediction (cnxn (after update_predictions s)))) ->
  In p (rows_of (prediction (cnxn s)))
  \/ (positive (mean p) = true /\ stddev p <> None).
Proof.
  destruct (update_predictions_effect s) as [records [qs [Hrec [Hrows _]]]].
  rewrite Hrows. intros H. apply upsert_predictions_rows in H.
  destruct H as [H|[m [Hm [Em Es]]]].
  - left. now rewrite rows_ensured in H.
  - right. specialize (Hrec m Hm). simpl in Hrec. now rewrite Em, Es.
Qed.

Lemma update_predictions_executed (s : State) (q : Sql) :
  In q (executed (after update_predictions s)) ->
  In q (executed s) \/ complete_insert q.
Proof.
  destruct (update_predictions_effect s) as [records [qs [_ [_ [_ [E Hqs]]]]]].
  rewrite E. intros H. apply in_app_or in H. destruct H; auto.
Qed.

(** C5: whatever the dataset and the outcome, [update_predictions] sends
    no INSERT with a mean that is missing or not strictly positive, and a
    table of predictions whose means are all strictly positive stays so,
    both as the transaction sees it and as committed; the rows resolved
    against the cells have passed the filter already. *)
Theorem predictions_have_positive_mean (s : State) :
  means_positive (cnxn s) ->
  means_positive (committed s) ->
  means_positive (cnxn (after update_predictions s))
  /\ means_positive (committed (after update_predictions s))
  /\ (forall d l c m sd,
        In (InsertPrediction d l c m sd)
           (executed (after update_predictions s)) ->
        In (InsertPrediction d l c m sd) (executed s)
        \/ positive m = true)
  /\ (forall ds cells m,
        In m (resolved ds cells) ->
        positive (r_mean (k_row (m_row m))) = true).
Proof.
  intros Hcn Hcm.
  assert (Hres : forall ds cells m,
            In m (resolved ds cells) ->
            positive (r_mean (k_row (m_row m))) = true).
  { intros ds cells m H. apply resolved_row in H.
    now apply df_predictions_row in H. }
  cut (means_positive (cnxn (after update_predictions s))
       /\ means_positive (committed (after update_predictions s))
       /\ (forall d l c m sd,
             In (InsertPrediction d l c m sd)
                (executed (after update_predictions s)) ->
             In (InsertPrediction d l c m sd) (executed s)
             \/ positive m = true)); [tauto|].
  assert (Hafter : means_positive (cnxn (after update_predictions s))).
  { intros p Hp. apply update_predictions_rows in Hp.
    destruct Hp as [Hp|[Hp _]]; [now apply Hcn | exact Hp]. }
  split; [exact Hafter|]. split.
  - destruct (update_predictions_effect s) as [_ [_ [_ [_ [[E|E] _]]]]];
      rewrite E; assumption.
  - intros d l c m sd H. apply update_predictions_executed in H.
    destruct H as [H|[H _]]; auto.
Qed.

Lemma predictions_have_positive_mean_witness :
  means_positive
    (committed (after update_predictions
                  (after update_geometries (loaded 3 no_ice empty_db))))
  /\ rows_of (prediction
                (committed (after update_predictions
                   (after update_geometries (loaded 3 no_ice empty_db)))))
     = [].
Proof.
  split.
  - apply (predictions_have_positive_mean
             (after update_geometries (loaded 3 no_ice empty_db)));
      intros p Hp; vm_compute in Hp; destruct Hp.
  - vm_compute. reflexivity.
Defined.

(** C10: a record without a standard deviation does not survive the
    filter, is not among the rows resolved against the cells, and,
    whatever the outcome of [update_predictions], is sent in no INSERT and
    enters no table. *)
Theorem missing_stddev_never_written :
  (forall ds r, In r (df_predictions ds) -> r_stddev r <> None)
  /\ (forall ds cells m,
        In m (resolved ds cells) -> r_stddev (k_row (m_row m)) <> None)
  /\ (forall s d l c m sd,
        In (InsertPrediction d l c m sd)
           (executed (after update_predictions s)) ->
        In (InsertPrediction d l c m sd) (executed s) \/ sd <> None)
  /\ (forall s,
        stddevs_present (cnxn s) -> stddevs_present (committed s) ->
        stddevs_present (cnxn (after update_predictions s))
        /\ stddevs_present (committed (after update_predictions s))).
Proof.
  split; [intros ds r H; now apply df_predictions_row in H|].
  split.
  { intros ds cells m H. apply resolved_row in H.
    now apply df_predictions_row in H. }
  split.
  { intros s d l c m sd H. apply update_predictions_executed in H.
    destruct H as [H|[_ H]]; auto. }
  intros s Hcn Hcm.
  assert (Hafter : stddevs_present (cnxn (after update_predictions s))).
  { intros p Hp. apply update_predictions_rows in Hp.
    destruct Hp as [Hp|[_ Hp]]; [now apply Hcn | exact Hp]. }
  split; [exact Hafter|].
  destruct (update_predictions_effect s) as [_ [_ [_ [_ [[E|E] _]]]]];
    rewrite E; assumption.
Qed.

Lemma missing_stddev_never_written_witness :
  length (to_dataframe missing_stddev) = 4%nat
  /\ length (df_predictions missing_stddev) = 2%nat
  /\ stddevs_present
       (committed (after update_predictions
                     (after update_geometries
                        (loaded 3 missing_stddev empty_db)))).
Proof.
  split; [reflexivity|]. split; [reflexivity|].
  destruct missing_stddev_never_written as [_ [_ [_ H]]].
  apply (H (after update_geometries (loaded 3 missing_stddev empty_db)));
    intros p Hp; vm_compute in Hp; destruct Hp.
Defined.

(** ** The latest view *)

Section ViewFacts.

Lemma Qopt_eqb_iff (a b : option Q) : Qopt_eqb a b = true <-> Qopt_equiv a b.
Proof.
  destruct a, b; simpl; try (split; [discriminate | contradiction]).
  - apply Qeq_bool_iff.
  - split; auto.
Qed.

Lemma polygon_eqb_iff (p : Polygon) : forall q, polygon_eqb p q = true <-> p = q.
Proof.
  induction p as [|[x y] p IH]; intros [|[x' y'] q]; simpl;
    try (split; [reflexivity | reflexivity]);
    try (split; discriminate).
  unfold point_eqb. simpl.
  rewrite !andb_true_iff, !Z.eqb_eq, IH. split.
  - intros [[-> ->] ->]. reflexivity.
  - intros E. injection E as -> -> ->. auto.
Qed.

Lemma geom_eqb_iff (g : Geom) : forall h, geom_eqb g h = true <-> g = h.
Proof.
  induction g as [w s|g IH s]; intros [w' s'|h s']; simpl;
    try (split; discriminate).
  - rewrite andb_true_iff, polygon_eqb_iff, Z.eqb_eq. split.
    + intros [-> ->]. reflexivity.
    + intros E. injection E as -> ->. auto.
  - rewrite andb_true_iff, IH, Z.eqb_eq. split.
    + intros [-> ->]. reflexivity.
    + intros E. injection E as -> ->. auto.
Qed.

Lemma cell_eqb_iff (c d : CellRow) : cell_eqb c d = true <-> c = d.
Proof.
  destruct c as [i x y g h], d as [i' x' y' g' h']. unfold cell_eqb. simpl.
  rewrite !andb_true_iff, !Z.eqb_eq, !geom_eqb_iff. split.
  - intros [[[[-> ->] ->] ->] ->]. reflexivity.
  - intros E. injection E as -> -> -> -> ->. auto 6.
Qed.

Lemma joined_eqb_iff (a b : JoinedRow) :
  joined_eqb a b = true <-> joined_equiv a b.
Proof.
  destruct a as [pa ca], b as [pb cb]. unfold joined_eqb, joined_equiv. simpl.
  rewrite andb_true_iff.
  assert (Hp : match pa, pb with
               | Some (d, l, m, s), Some (d', l', m', s') =>
                   (d =? d') && (l =? l') && Qopt_eqb m m' && Qopt_eqb s s'
               | None, None => true
               | _, _ => false
               end = true <-> prediction_equiv pa pb).
  { destruct pa as [[[[d l] m] s]|], pb as [[[[d' l'] m'] s']|]; simpl;
      try (split; [discriminate | contradiction]); [|split; auto].
    rewrite !andb_true_iff, !Z.eqb_eq, !Qopt_eqb_iff. tauto. }
  assert (Hc : match ca, cb with
               | Some c, Some c' => cell_eqb c c'
               | None, None => true
               | _, _ => false
               end = true <-> ca = cb).
  { destruct ca as [c|], cb as [c'|]; simpl;
      try (split; discriminate); [|split; auto].
    rewrite cell_eqb_iff. split; [now intros -> | now intros [= ->]]. }
  rewrite Hp, Hc. reflexivity.
Qed.

Lemma Qopt_equiv_refl (a : option Q) : Qopt_equiv a a.
Proof. destruct a; simpl; [reflexivity | exact I]. Qed.

Lemma Qopt_equiv_sym (a b : option Q) : Qopt_equiv a b -> Qopt_equiv b a.
Proof. destruct a, b; simpl; auto. intros H. now symmetry. Qed.

Lemma Qopt_equiv_trans (a b c : option Q) :
  Qopt_equiv a b -> Qopt_equiv b c -> Qopt_equiv a c.
Proof.
  destruct a, b, c; simpl; try contradiction; auto.
  intros H1 H2. now rewrite H1.
Qed.

Lemma joined_equiv_refl (a : JoinedRow) : joined_equiv a a.
Proof.
  split; [|reflexivity].
  destruct (j_prediction a) as [[[[d l] m] s]|]; simpl; [|exact I].
  repeat split; apply Qopt_equiv_refl.
Qed.

Lemma joined_equiv_sym (a b : JoinedRow) : joined_equiv a b -> joined_equiv b a.
Proof.
  intros [Hp Hc]. split; [|now symmetry].
  destruct (j_prediction a) as [[[[d l] m] s]|],
           (j_prediction b) as [[[[d' l'] m'] s']|]; simpl in *;
    try contradiction; [|exact I].
  destruct Hp as [-> [-> [Hm Hs]]].
  repeat split; now apply Qopt_equiv_sym.
Qed.

Lemma joined_equiv_trans (a b c : JoinedRow) :
  joined_equiv a b -> joined_equiv b c -> joined_equiv a c.
Proof.
  intros [Hp Hc] [Hp' Hc']. split; [|congruence].
  destruct (j_prediction a) as [[[[d l] m] s]|],
           (j_prediction b) as [[[[d' l'] m'] s']|],
           (j_prediction c) as [[[[d'' l''] m''] s'']|]; simpl in *;
    try contradiction; [|exact I].
  destruct Hp as [-> [-> [Hm Hs]]]. destruct Hp' as [-> [-> [Hm' Hs']]].
  repeat split; eapply Qopt_equiv_trans; eassumption.
Qed.


Lemma filter_none {X} (f : X -> bool) (l : list X) :
  (forall x, In x l -> f x = false) -> filter f l = [].
Proof.
  induction l as [|a l IH]; intros H; simpl; [reflexivity|].
  rewrite (H a) by now left. apply IH. intros x Hx. apply H. now right.
Qed.

Lemma filter_filter_same {X} (f g : X -> bool) (l : list X) :
  (forall x, In x l -> f x = true -> g x = true) ->
  filter f (filter g l) = filter f l.
Proof.
  induction l as [|a l IH]; intros H; simpl; [reflexivity|].
  assert (Hl : forall x, In x l -> f x = true -> g x = true)
    by (intros x Hx; apply H; now right).
  destruct (g a) eqn:Eg; simpl.
  - now rewrite IH.
  - destruct (f a) eqn:Ef.
    + rewrite (H a) in Eg; [discriminate | now left | assumption].
    + now apply IH.
Qed.

(** Each group of the GROUP BY gives exactly one row. *)
Lemma group_by_one (l : list JoinedRow) (j : JoinedRow) :
  (exists k, In k l /\ joined_equiv j k) ->
  length (filter (joined_eqb j) (group_by l)) = 1%nat.
Proof.
  induction l as [|a l IH]; intros [k [Hk Hjk]]; [destruct Hk|].
  cbn [group_by filter].
  destruct (joined_eqb j a) eqn:E.
  - apply joined_eqb_iff in E. simpl. f_equal.
    rewrite filter_none; [reflexivity|].
    intros x Hx. apply filter_In in Hx. destruct Hx as [_ Hx].
    apply negb_true_iff in Hx.
    destruct (joined_eqb j x) eqn:Ex; [|reflexivity].
    apply joined_eqb_iff in Ex.
    assert (Hax : joined_eqb a x = true).
    { apply joined_eqb_iff. eapply joined_equiv_trans; [|exact Ex].
      now apply joined_equiv_sym. }
    rewrite Hax in Hx. discriminate.
  - rewrite filter_filter_same.
    + apply IH. destruct Hk as [<-|Hk].
      * apply joined_eqb_iff in Hjk. rewrite Hjk in E. discriminate.
      * eauto.
    + intros x _ Hx. apply negb_true_iff.
      destruct (joined_eqb a x) eqn:Eax; [|reflexivity].
      apply joined_eqb_iff in Hx, Eax.
      assert (Hja : joined_eqb j a = true).
      { apply joined_eqb_iff. eapply joined_equiv_trans; [exact Hx|].
        now apply joined_equiv_sym. }
      rewrite Hja in E. discriminate.
Qed.

Lemma row_number_columns (l : list JoinedRow) :
  forall n, map columns (row_number n l) = l.
Proof.
  induction l as [|j l IH]; intros n; simpl; [reflexivity|].
  now rewrite IH.
Qed.

Lemma rows_showing_row_number (j : JoinedRow) (l : list JoinedRow) :
  forall n, length (rows_showing j (row_number n l))
            = length (filter (joined_eqb j) l).
Proof.
  unfold rows_showing.
  induction l as [|a l IH]; intros n; simpl; [reflexivity|].
  destruct (joined_eqb j a); simpl; now rewrite IH.
Qed.




End ViewFacts.

Section RefreshFacts.

Lemma update_latest_prediction_no_view (s : State) :
  prediction_latest (cnxn s) = None ->
  update_latest_prediction s =
  (Raise (DatabaseError UndefinedTable),
   mkState (batch_size s) (xr s) (cnxn s) (committed s)
     (executed s ++ [DropMaterializedViewLatest; CreateMaterializedViewLatest])
     (log s ++ [INFO UpdatingView]) (monotonic s) (ticks s)).
Proof.
  intros H. unfold update_latest_prediction, cursor_execute.
  run_primitives. now rewrite H.
Qed.

Lemma update_latest_prediction_executed (s : State) :
  executed (after update_latest_prediction s) =
  executed s ++ [DropMaterializedViewLatest; CreateMaterializedViewLatest].
Proof.
  unfold after, update_latest_prediction, cursor_execute. run_primitives.
  destruct (prediction_latest (cnxn s)); [|reflexivity].
  destruct (prediction (cnxn s)); [|reflexivity].
  destruct (cell (cnxn s)); reflexivity.
Qed.

Lemma update_latest_prediction_returns (s s' : State) :
  update_latest_prediction s = (Return tt, s') ->
  exists ps cs,
    prediction (cnxn s) = Some ps /\ cell (cnxn s) = Some cs
    /\ committed s' =
       mkDB (Some cs) (Some ps) (Some (latest_query (rows ps) (rows cs))).
Proof.
  unfold update_latest_prediction, cursor_execute. run_primitives.
  destruct (prediction_latest (cnxn s)); [|discriminate].
  destruct (prediction (cnxn s)) as [ps|]; [|discriminate].
  destruct (cell (cnxn s)) as [cs|]; [|discriminate].
  simpl. intros [= <-]. exists ps, cs. auto.
Qed.

End RefreshFacts.




(** C8: every refresh sends the DROP of the view and then its CREATE,
    once; when the view is not there the refresh raises the error of the
    DROP and leaves the database as it was. *)
Theorem refresh_drops_then_creates (s : State) :
  executed (after update_latest_prediction s) =
  executed s ++ [DropMaterializedViewLatest; CreateMaterializedViewLatest]
  /\ (prediction_latest (cnxn s) = None ->
      fst (update_latest_prediction s) = Raise (DatabaseError UndefinedTable)
      /\ cnxn (after update_latest_prediction s) = cnxn s
      /\ committed (after update_latest_prediction s) = committed s).
Proof.
  split; [apply update_latest_prediction_executed|].
  intros H. unfold after.
  rewrite (update_latest_prediction_no_view s H). auto.
Qed.

Lemma refresh_drops_then_creates_witness :
  prediction_latest (cnxn (init 3 empty_db clock)) = None
  /\ fst (update_latest_prediction (init 3 empty_db clock))
     = Raise (DatabaseError UndefinedTable)
  /\ committed (after update_latest_prediction (init 3 empty_db clock))
     = empty_db.
Proof.
  split; [reflexivity|].
  destruct (refresh_drops_then_creates (init 3 empty_db clock)) as [_ H].
  destruct (H eq_refl) as [Hr [_ Hc]].
  split; [exact Hr | exact Hc].
Defined.

Lemma update_geometries_unloaded (s : State) :
  xr s = None ->
  update_geometries s =
  (Raise AttributeError,
   mkState (batch_size s) None
     (mkDB (Some (ensured (cell (cnxn s)))) (prediction (cnxn s))
        (prediction_latest (cnxn s)))
     (mkDB (Some (ensured (cell (cnxn s)))) (prediction (cnxn s))
        (prediction_latest (cnxn s)))
     (executed s ++ [CreateTableCellIfNotExists])
     (log s ++ [INFO (EnsuringTableExists geom);
                INFO (EnsuredTableExists geom); INFO IdentifyingGeometries])
     (monotonic s) (ticks s)).
Proof.
  intros Hx. unfold update_geometries.
  unfold bind at 1. unfold logging_info at 1, logging at 1.
  unfold bind at 1. unfold cursor_execute at 1. cbn [cnxn].
  rewrite create_cell_run. run_primitives. rewrite Hx, <- !app_assoc.
  reflexivity.
Qed.

(** C7: when the decoder raises [ValueError], [load] logs the failure and
    returns as if nothing had happened, the dataset still unset; the
    [update_geometries] that follows sends and commits its CREATE TABLE
    before it fails on the missing dataset. *)
Theorem load_swallows_decode_error
  (open_dataset : list Byte.byte -> Exn + Dataset) (inputBlob : InputStream)
  (text : String.string) (s : State) :
  open_dataset (read inputBlob) = inl (ValueError text) ->
  xr s = None ->
  load open_dataset inputBlob s =
  (Return tt,
   mkState (batch_size s) None (cnxn s) (committed s) (executed s)
     (log s ++ [INFO (AttemptingToLoad (name inputBlob));
                ERROR (CouldNotLoad (name inputBlob));
                ERROR (ExceptionText (ValueError text))])
     (monotonic s) (ticks s))
  /\ fst (update_geometries (after (load open_dataset inputBlob) s))
     = Raise AttributeError
  /\ executed (after update_geometries (after (load open_dataset inputBlob) s))
     = executed s ++ [CreateTableCellIfNotExists]
  /\ cell (committed (after update_geometries
                        (after (load open_dataset inputBlob) s)))
     = Some (ensured (cell (cnxn s))).
Proof.
  intros Hd Hx.
  assert (E : load open_dataset inputBlob s =
    (Return tt,
     mkState (batch_size s) None (cnxn s) (committed s) (executed s)
       (log s ++ [INFO (AttemptingToLoad (name inputBlob));
                  ERROR (CouldNotLoad (name inputBlob));
                  ERROR (ExceptionText (ValueError text))])
       (monotonic s) (ticks s))).
  { unfold load, try_except_ValueError. run_primitives. rewrite Hd. simpl.
    rewrite Hx, <- !app_assoc. reflexivity. }
  split; [exact E|]. unfold after. rewrite E. cbn [snd].
  rewrite update_geometries_unloaded by reflexivity.
  repeat split; reflexivity.
Qed.

Lemma load_swallows_decode_error_witness :
  fst (load unreadable bad_blob (init 3 empty_db clock)) = Return tt
  /\ xr (after (load unreadable bad_blob) (init 3 empty_db clock)) = None
  /\ cell (committed (after update_geometries
                        (after (load unreadable bad_blob)
                           (init 3 empty_db clock))))
     = Some empty_table.
Proof.
  destruct (load_swallows_decode_error unreadable bad_blob _
              (init 3 empty_db clock) eq_refl eq_refl) as [E [_ [_ Hc]]].
  split; [now rewrite E|]. split; [unfold after; now rewrite E|].
  exact Hc.
Defined.

(** ** Resolving cells *)

Section ResolverFacts.

Lemma py_int_floor_ceiling (q : Q) :
  py_int q = if 0 <=? Qnum q then Qfloor q else Qceiling q.
Proof.
  destruct q as [n d]. unfold py_int, Qceiling, Qfloor. simpl.
  destruct (0 <=? n) eqn:E.
  - apply Z.leb_le in E. apply Z.quot_div_nonneg; lia.
  - apply Z.leb_gt in E.
    replace n with (- - n) at 1 by lia.
    rewrite Z.quot_opp_l by lia. f_equal.
    apply Z.quot_div_nonneg; lia.
Qed.

Lemma Qnum_sign_comp (q q' : Q) :
  (q == q')%Q -> (0 <=? Qnum q) = (0 <=? Qnum q').
Proof.
  unfold Qeq. intros H.
  destruct (0 <=? Qnum q) eqn:E, (0 <=? Qnum q') eqn:E'; try reflexivity.
  - apply Z.leb_le in E. apply Z.leb_gt in E'. nia.
  - apply Z.leb_gt in E. apply Z.leb_le in E'. nia.
Qed.

(** Truncation depends on the number only, not on how it is written. *)
Lemma py_int_comp (q q' : Q) : (q == q')%Q -> py_int q = py_int q'.
Proof.
  intros H. rewrite !py_int_floor_ceiling, (Qnum_sign_comp q q' H).
  destruct (0 <=? Qnum q'); [now apply Qfloor_comp | now apply Qceiling_comp].
Qed.

Lemma py_int_inject_Z (z : Z) : py_int (inject_Z z) = z.
Proof. unfold py_int. simpl. apply Z.quot_1_r. Qed.

Lemma combine_columns {X Y W} (f : X -> Y) (g : X -> W) (l : list X) :
  combine l (combine (map f l) (map g l)) = map (fun r => (r, (f r, g r))) l.
Proof.
  induction l as [|a l IH]; simpl; [reflexivity | now rewrite IH].
Qed.

(** A downcast column holds, row by row, the value or its truncation. *)
Lemma to_numeric_column {X} (f : X -> Q) (l : list X) :
  exists g,
    to_numeric_downcast_integer (map f l) = map g l
    /\ forall r, (g r == f r)%Q \/ (g r == inject_Z (py_int (f r)))%Q.
Proof.
  unfold to_numeric_downcast_integer.
  destruct (forallb lossless (map f l)).
  - exists (fun r => inject_Z (py_int (f r))). split.
    + now rewrite map_map.
    + intros r. right. reflexivity.
  - exists f. split; [reflexivity|]. intros r. left. reflexivity.
Qed.

Lemma with_metres_key (df : list Row) (k : KeyedRow) :
  In k (with_metres df) ->
  ((xc_m k == scale 1000 (r_xc (k_row k)))%Q
   \/ (xc_m k == inject_Z (centroid_m (r_xc (k_row k))))%Q)
  /\ ((yc_m k == scale 1000 (r_yc (k_row k)))%Q
      \/ (yc_m k == inject_Z (centroid_m (r_yc (k_row k))))%Q).
Proof.
  unfold with_metres.
  destruct (to_numeric_column (fun r => scale 1000 (r_xc r)) df) as [gx [-> Hx]].
  destruct (to_numeric_column (fun r => scale 1000 (r_yc r)) df) as [gy [-> Hy]].
  rewrite combine_columns, map_map. intros H.
  apply in_map_iff in H. destruct H as [r [<- _]]. simpl.
  split; [apply Hx | apply Hy].
Qed.

(** A key that equals an integer has that integer as its truncation. *)
Lemma key_truncates (v x : Q) (c : Z) :
  (v == scale 1000 x)%Q \/ (v == inject_Z (centroid_m x))%Q ->
  Qeq_bool v (inject_Z c) = true ->
  c = centroid_m x.
Proof.
  intros H E. apply Qeq_bool_iff in E. destruct H as [H|H].
  - unfold centroid_m. rewrite <- (py_int_comp _ _ H), (py_int_comp _ _ E).
    now rewrite py_int_inject_Z.
  - rewrite H in E. unfold Qeq in E. simpl in E. lia.
Qed.

Lemma merge_left_match (left : list KeyedRow) (right : list CellKey)
  (m : MergedRow) (id : Z) :
  In m (merge_left left right) -> m_cell_id m = Some id ->
  In (m_row m) left
  /\ exists cx cy, In (id, cx, cy) right
                   /\ key_match (m_row m) (id, cx, cy) = true.
Proof.
  unfold merge_left. intros H E. apply in_flat_map in H.
  destruct H as [k [Hk H]].
  destruct (filter (key_match k) right) as [|c ms] eqn:F.
  - destruct H as [<-|[]]. discriminate.
  - apply in_map_iff in H. destruct H as [[[id' cx] cy] [<- Hin]].
    simpl in E. injection E as ->. simpl. split; [assumption|].
    exists cx, cy. rewrite <- F in Hin. apply filter_In in Hin. exact Hin.
Qed.

(** What the resolver does assign is right: the cell of a resolved row
    has the truncated coordinates of the row as its centroid. *)
Lemma resolved_cell_matches (ds : Dataset) (cells : list CellRow)
  (m : MergedRow) (id : Z) :
  In m (resolved ds cells) -> m_cell_id m = Some id ->
  exists c, In c cells /\ cell_id c = id
            /\ centroid_x c = centroid_m (r_xc (k_row (m_row m)))
            /\ centroid_y c = centroid_m (r_yc (k_row (m_row m))).
Proof.
  unfold resolved. intros H E.
  destruct (merge_left_match _ _ _ _ H E) as [Hk [cx [cy [Hin Hm]]]].
  apply with_metres_key in Hk. destruct Hk as [Kx Ky].
  unfold df_cells in Hin. apply in_map_iff in Hin.
  destruct Hin as [c [Ec Hc]]. injection Ec as <- <- <-.
  unfold key_match in Hm. apply andb_true_iff in Hm. destruct Hm as [Mx My].
  exists c. split; [assumption|]. split; [reflexivity|].
  split; eapply key_truncates; eassumption.
Qed.

End ResolverFacts.


(** On whole kilometres the keys are downcast and every record finds its
    cell. *)
Example resolver_matches_whole_metres :
  let s1 := after update_geometries (loaded 3 two_leadtimes empty_db) in
  map m_cell_id (resolved two_leadtimes (cell_rows (committed s1)))
  = [Some 1; Some 2; Some 3; Some 4; Some 1; Some 2; Some 3; Some 4].
Proof. vm_compute. reflexivity. Qed.

(** The keys of table [cell] stay below its sequence: the fresh database
    has the property and [update_geometries] keeps it. *)
Lemma cell_ids_drawn_empty : cell_ids_drawn empty_db.
Proof. intros t H. discriminate. Qed.

Lemma update_geometries_cell_ids_drawn (s s1 : State) :
  cell_ids_drawn (cnxn s) ->
  update_geometries s = (Return tt, s1) ->
  cell_ids_drawn (cnxn s1) /\ cell_ids_drawn (committed s1).
Proof.
  intros Hids H.
  destruct (update_geometries_returns _ _ H) as [ds [records [k [Hx [Hr Hk]]]]].
  rewrite (update_geometries_run s ds records k Hx Hr Hk) in H.
  injection H as <-. cbn [cnxn committed].
  assert (G : cell_ids_drawn (with_cells records (cnxn s))).
  { intros t Ht. unfold with_cells in Ht. simpl in Ht. injection Ht as <-.
    apply upsert_cells_ids_below. now apply ensured_ids_below. }
  split; exact G.
Qed.

(** * Further properties *)

(** ** [update_geometries], whatever its outcome *)

Section GeometryRunFacts.

Lemma update_geometries_no_step (s : State) (ds : Dataset) :
  xr s = Some ds ->
  geometry_records (ds_xc ds) (ds_yc ds) = None ->
  exists lg,
    update_geometries s =
    (Raise StepSizeError,
     mkState (batch_size s) (Some ds)
       (with_cells [] (cnxn s)) (with_cells [] (cnxn s))
       (executed s ++ [CreateTableCellIfNotExists]) lg
       (monotonic s) (ticks s)).
Proof.
  intros Hx Hr. unfold update_geometries.
  unfold bind at 1. unfold logging_info at 1, logging at 1.
  unfold bind at 1. unfold cursor_execute at 1. cbn [cnxn].
  rewrite create_cell_run. run_primitives. rewrite Hx, Hr. simpl.
  eexists. reflexivity.
Qed.

Lemma update_geometries_zero_size (s : State) (ds : Dataset)
  (records : list GeomRecord) :
  xr s = Some ds ->
  geometry_records (ds_xc ds) (ds_yc ds) = Some records ->
  batch_size s = O ->
  exists lg,
    update_geometries s =
    (Raise ZeroDivisionError,
     mkState O (Some ds)
       (with_cells [] (cnxn s)) (with_cells [] (cnxn s))
       (executed s ++ [CreateTableCellIfNotExists]) lg
       (monotonic s) (ticks s)).
Proof.
  intros Hx Hr Hk. unfold update_geometries.
  unfold bind at 1. unfold logging_info at 1, logging at 1.
  unfold bind at 1. unfold cursor_execute at 1. cbn [cnxn].
  rewrite create_cell_run. run_primitives. rewrite Hx, Hr. simpl.
  unfold insert_batches, count_batches. run_primitives. rewrite Hk.
  eexists. reflexivity.
Qed.

(** The database and the statements after [update_geometries]: the
    records upserted are those of the grid when the method returns and
    none when it raises. *)
Lemma update_geometries_effect (s : State) :
  exists records,
    cnxn (after update_geometries s) = with_cells records (cnxn s)
    /\ committed (after update_geometries s) = with_cells records (cnxn s)
    /\ executed (after update_geometries s) =
       executed s ++ CreateTableCellIfNotExists :: map InsertCell records
    /\ (records = []
        \/ exists ds, xr s = Some ds
                      /\ geometry_records (ds_xc ds) (ds_yc ds) = Some records
                      /\ fst (update_geometries s) = Return tt).
Proof.
  unfold after.
  destruct (xr s) as [ds|] eqn:Hx.
  - destruct (geometry_records (ds_xc ds) (ds_yc ds)) as [records|] eqn:Hr.
    + destruct (batch_size s) as [|k] eqn:Hk.
      * destruct (update_geometries_zero_size s ds records Hx Hr Hk) as [lg ->].
        exists []. cbn [snd cnxn committed executed map]. auto.
      * rewrite (update_geometries_run s ds records k Hx Hr Hk).
        exists records. cbn [fst snd cnxn committed executed].
        repeat split; try reflexivity. right. exists ds. auto.
    + destruct (update_geometries_no_step s ds Hx Hr) as [lg ->].
      exists []. cbn [snd cnxn committed executed map]. auto.
  - rewrite (update_geometries_unloaded s Hx).
    exists []. cbn [snd cnxn committed executed map]. auto.
Qed.

End GeometryRunFacts.

Section CellInvariantFacts.

Lemma cell_rows_with_cells (records : list GeomRecord) (db : DB) :
  cell_rows (with_cells records db) =
  rows (upsert_cells records (ensured (cell db))).
Proof. reflexivity. Qed.

Lemma cell_rows_ensured (db : DB) : rows (ensured (cell db)) = cell_rows db.
Proof. unfold cell_rows. now destruct (cell db). Qed.

Lemma build_records_complete (xs ys : list Q) (dx dy : Z) (x y : Q) :
  In x xs -> In y ys ->
  exists r, In r (build_records xs ys dx dy)
            /\ rec_centroid_x r = centroid_m x
            /\ rec_centroid_y r = centroid_m y.
Proof.
  intros Hx Hy. eexists. split.
  - unfold build_records. apply in_flat_map. exists x. split; [exact Hx|].
    apply in_map_iff. exists y. split; [reflexivity | exact Hy].
  - split; reflexivity.
Qed.

Lemma no_conflict_fresh (new : CellRow) (rs : list CellRow) :
  existsb (cell_conflict new) rs = false ->
  ~ In (cell_id new) (map cell_id rs)
  /\ ~ In (centroid_of new) (map centroid_of rs).
Proof.
  intros H. split; intros Hin; apply in_map_iff in Hin;
    destruct Hin as [old [E Hold]];
    assert (C : existsb (cell_conflict new) rs = true);
    try (rewrite C in H; discriminate);
    apply existsb_exists; exists old; (split; [exact Hold|]);
    unfold cell_conflict.
  - rewrite E, Z.eqb_refl. reflexivity.
  - unfold centroid_of in E. injection E as -> ->.
    rewrite !Z.eqb_refl. apply orb_true_r.
Qed.

Lemma NoDup_snoc {X} (l : list X) (a : X) :
  NoDup l -> ~ In a l -> NoDup (l ++ [a]).
Proof.
  intros Hl Ha. apply NoDup_app; [assumption | repeat constructor; auto |].
  intros x Hx [<-|[]]. contradiction.
Qed.

Lemma insert_cell_unique (r : GeomRecord) (t : Table CellRow) :
  cells_unique (rows t) -> cells_unique (rows (insert_cell r t)).
Proof.
  intros [Hid Hc]. unfold insert_cell.
  destruct (existsb _ (rows t)) eqn:E; simpl; [split; assumption|].
  apply no_conflict_fresh in E. destruct E as [Ei Ec].
  split; rewrite map_app; simpl; apply NoDup_snoc; assumption.
Qed.

Lemma upsert_cells_unique (records : list GeomRecord) :
  forall t, cells_unique (rows t) -> cells_unique (rows (upsert_cells records t)).
Proof.
  induction records as [|r records IH]; intros t H; [assumption|].
  rewrite upsert_cells_cons. apply IH. now apply insert_cell_unique.
Qed.

Lemma insert_cell_geometries (r : GeomRecord) (t : Table CellRow) :
  rec_wkt_4326 r = rec_wkt_6931 r ->
  geometries_agree (rows t) -> geometries_agree (rows (insert_cell r t)).
Proof.
  unfold geometries_agree, insert_cell. intros E H.
  destruct (existsb _ (rows t)); simpl; [assumption|].
  apply Forall_app. split; [assumption|].
  constructor; [|constructor]. simpl. rewrite E.
  eexists. split; reflexivity.
Qed.

Lemma upsert_cells_geometries (records : list GeomRecord) :
  Forall (fun r => rec_wkt_4326 r = rec_wkt_6931 r) records ->
  forall t, geometries_agree (rows t) ->
            geometries_agree (rows (upsert_cells records t)).
Proof.
  induction records as [|r records IH]; intros Hr t H; [assumption|].
  inversion Hr as [|? ? E Hrs]; subst.
  rewrite upsert_cells_cons. apply IH; [assumption|].
  now apply insert_cell_geometries.
Qed.

Lemma geometry_records_same_text (xs ys : list Q) (records : list GeomRecord) :
  geometry_records xs ys = Some records ->
  Forall (fun r => rec_wkt_4326 r = rec_wkt_6931 r) records.
Proof.
  unfold geometry_records. intros H.
  destruct (delta_m xs) as [dx|]; [|discriminate].
  destruct (delta_m ys) as [dy|]; [|discriminate].
  injection H as <-. apply Forall_forall. intros r Hr.
  now apply build_records_centroid in Hr.
Qed.

End CellInvariantFacts.

(** X1: whatever its outcome, [update_geometries] leaves nothing
    uncommitted, sends only statements on table [cell], keeps the table of
    predictions and the latest view as they were, and keeps every cell
    that was there, in place and unchanged, ahead of the new ones. *)
Theorem update_geometries_touches_cells_only (s : State) :
  committed (after update_geometries s) = cnxn (after update_geometries s)
  /\ prediction (cnxn (after update_geometries s)) = prediction (cnxn s)
  /\ prediction_latest (cnxn (after update_geometries s))
     = prediction_latest (cnxn s)
  /\ (exists qs, executed (after update_geometries s) = executed s ++ qs
                 /\ Forall cell_statement qs)
  /\ (exists added,
        cell_rows (cnxn (after update_geometries s))
        = cell_rows (cnxn s) ++ added).
Proof.
  destruct (update_geometries_effect s) as [records [Hc [Hm [He _]]]].
  rewrite Hc, Hm, He. split; [reflexivity|]. split; [reflexivity|].
  split; [reflexivity|]. split.
  - eexists. split; [reflexivity|]. constructor; [exact I|].
    apply Forall_forall. intros q Hq. apply in_map_iff in Hq.
    destruct Hq as [r [<- _]]. exact I.
  - rewrite cell_rows_with_cells.
    destruct (upsert_cells_extends records (ensured (cell (cnxn s))))
      as [added E].
    exists added. now rewrite E, cell_rows_ensured.
Qed.

Lemma grid_is_covered (s s1 : State) (ds : Dataset) :
  cell_ids_drawn (cnxn s) ->
  xr s = Some ds ->
  update_geometries s = (Return tt, s1) ->
  forall x y, In x (ds_xc ds) -> In y (ds_yc ds) ->
  exists c, In c (cell_rows (committed s1))
            /\ centroid_x c = centroid_m x /\ centroid_y c = centroid_m y.
Proof.
  intros Hids Hx H x y Hinx Hiny.
  destruct (update_geometries_returns _ _ H) as [ds' [records [k [Hx' [Hr Hk]]]]].
  rewrite Hx in Hx'. injection Hx' as <-.
  rewrite (update_geometries_run s ds records k Hx Hr Hk) in H.
  injection H as <-. cbn [committed]. rewrite cell_rows_with_cells.
  assert (Hp := upsert_cells_present records _ (ensured_ids_below _ Hids)).
  rewrite Forall_forall in Hp.
  unfold geometry_records in Hr.
  destruct (delta_m (ds_xc ds)) as [dx|]; [|discriminate].
  destruct (delta_m (ds_yc ds)) as [dy|]; [|discriminate].
  injection Hr as <-.
  destruct (build_records_complete _ _ dx dy x y Hinx Hiny) as [r [Hr [Ex Ey]]].
  destruct (Hp r Hr) as [c [Hc [Ecx Ecy]]].
  exists c. split; [exact Hc|]. split; congruence.
Qed.

(** X2: when [update_geometries] returns, table [cell] holds, for every
    x centroid and every y centroid of the dataset, a cell at that pair of
    centroids truncated to metres. *)
Theorem update_geometries_covers_grid (s s1 : State) (ds : Dataset) :
  cell_ids_drawn (cnxn s) ->
  xr s = Some ds ->
  update_geometries s = (Return tt, s1) ->
  forall x y, In x (ds_xc ds) -> In y (ds_yc ds) ->
  exists c, In c (cell_rows (committed s1))
            /\ centroid_x c = centroid_m x /\ centroid_y c = centroid_m y.
Proof.
  intros Hids Hx H x y Hinx Hiny.
  exact (grid_is_covered s s1 ds Hids Hx H x y Hinx Hiny).
Qed.

Lemma update_geometries_covers_grid_witness :
  exists c,
    In c (cell_rows (committed (after update_geometries
                                  (loaded 3 two_leadtimes empty_db))))
    /\ centroid_x c = 25000 /\ centroid_y c = 0.
Proof.
  pose (s1 := snd (update_geometries (loaded 3 two_leadtimes empty_db))).
  assert (H : update_geometries (loaded 3 two_leadtimes empty_db)
              = (Return tt, s1)) by (vm_compute; reflexivity).
  destruct (update_geometries_covers_grid
              (loaded 3 two_leadtimes empty_db) s1 two_leadtimes
              cell_ids_drawn_empty eq_refl H 25%Q 0%Q)
    as [c [Hc [Ex Ey]]]; [simpl; auto | simpl; auto |].
  exists c. split; [exact Hc|]. split; [exact Ex | exact Ey].
Defined.

(** X3: the constraints of table [cell] are kept without being checked on
    the way: if no two cells share a key or a pair of centroids before
    [update_geometries], none do after it, whatever the outcome and
    however often the grid repeats a centroid. *)
Theorem update_geometries_keeps_cells_unique (s : State) :
  cells_unique (cell_rows (cnxn s)) ->
  cells_unique (cell_rows (committed (after update_geometries s))).
Proof.
  intros H.
  destruct (update_geometries_effect s) as [records [_ [-> _]]].
  rewrite cell_rows_with_cells. apply upsert_cells_unique.
  now rewrite cell_rows_ensured.
Qed.

Lemma update_geometries_keeps_cells_unique_witness :
  cells_unique
    (cell_rows (committed (after update_geometries
                             (loaded 3 two_leadtimes empty_db)))).
Proof.
  apply update_geometries_keeps_cells_unique.
  split; constructor.
Defined.

(** X4: every cell written by [update_geometries] has its geographic
    geometry computed from its projected one: if the two geometry columns
    agree in every cell before the method, they do after it. *)
Theorem update_geometries_keeps_geometries (s : State) :
  geometries_agree (cell_rows (cnxn s)) ->
  geometries_agree (cell_rows (committed (after update_geometries s))).
Proof.
  intros H.
  destruct (update_geometries_effect s) as [records [_ [-> [_ Hr]]]].
  rewrite cell_rows_with_cells. apply upsert_cells_geometries.
  - destruct Hr as [->|[ds [_ [Hr _]]]]; [constructor|].
    now apply geometry_records_same_text in Hr.
  - now rewrite cell_rows_ensured.
Qed.

Lemma update_geometries_keeps_geometries_witness :
  geometries_agree
    (cell_rows (committed (after update_geometries
                             (loaded 3 two_leadtimes empty_db)))).
Proof.
  apply update_geometries_keeps_geometries. constructor.
Defined.

(** ** The filter on the dataset *)

Section FilterFacts.

Lemma map_flat_map {X Y W} (g : Y -> W) (f : X -> list Y) (l : list X) :
  map g (flat_map f l) = flat_map (fun a => map g (f a)) l.
Proof.
  induction l as [|a l IH]; simpl; [reflexivity|].
  now rewrite map_app, IH.
Qed.

Lemma to_dataframe_where (ds : Dataset) :
  to_dataframe (where_ (fun t l x y => positive (ds_mean ds t l x y)) ds)
  = map masked (to_dataframe ds).
Proof.
  unfold to_dataframe. cbn [where_ ds_time ds_leadtime ds_xc ds_yc ds_mean ds_stddev].
  rewrite map_flat_map. apply flat_map_ext. intros t.
  rewrite map_flat_map. apply flat_map_ext. intros l.
  rewrite map_flat_map. apply flat_map_ext. intros x.
  rewrite map_map. apply map_ext. intros y.
  unfold masked. cbn [r_mean r_time r_leadtime r_xc r_yc].
  destruct (positive (ds_mean ds (fst t) (fst l) (fst x) (fst y))); reflexivity.
Qed.

Lemma positive_notna (v : option Q) : positive v = true -> notna v = true.
Proof. destruct v; [reflexivity | discriminate]. Qed.

Lemma dropna_masked (l : list Row) :
  dropna (map masked l) = filter kept l.
Proof.
  unfold dropna. induction l as [|r l IH]; [reflexivity|].
  cbn [map filter]. rewrite IH. unfold masked, kept.
  destruct (positive (r_mean r)) eqn:P.
  - now rewrite (positive_notna _ P).
  - reflexivity.
Qed.

End FilterFacts.

Lemma df_predictions_keeps_exactly_eq (ds : Dataset) :
  df_predictions ds = filter kept (to_dataframe ds).
Proof.
  unfold df_predictions. rewrite to_dataframe_where. apply dropna_masked.
Qed.

(** X5: the predictions taken from a dataset are exactly its points with
    a strictly positive mean and a standard deviation, in the order of the
    dataset and with their values unchanged; nothing else is dropped. *)
Theorem df_predictions_keeps_exactly (ds : Dataset) :
  df_predictions ds = filter kept (to_dataframe ds).
Proof.
  rewrite (df_predictions_keeps_exactly_eq ds). reflexivity.
Qed.

(** ** The join with the cells *)

Section JoinFacts.

Lemma merge_left_unmatched (left : list KeyedRow) (right : list CellKey)
  (m : MergedRow) :
  In m (merge_left left right) -> m_cell_id m = None ->
  filter (key_match (m_row m)) right = [].
Proof.
  unfold merge_left. intros H E. apply in_flat_map in H.
  destruct H as [k [_ H]].
  destruct (filter (key_match k) right) as [|c ms] eqn:F.
  - destruct H as [<-|[]]. exact F.
  - apply in_map_iff in H. destruct H as [[[id cx] cy] [<- _]]. discriminate.
Qed.

Lemma whole_metres_key (v x : Q) :
  whole_metres x ->
  (v == scale 1000 x)%Q \/ (v == inject_Z (centroid_m x))%Q ->
  Qeq_bool v (inject_Z (centroid_m x)) = true.
Proof.
  unfold whole_metres. intros W [H|H]; apply Qeq_bool_iff.
  - now rewrite H.
  - exact H.
Qed.

Lemma with_metres_map (df : list Row) :
  exists gx gy, with_metres df = map (fun r => mkKeyed r (gx r) (gy r)) df.
Proof.
  unfold with_metres.
  destruct (to_numeric_column (fun r => scale 1000 (r_xc r)) df) as [gx [-> _]].
  destruct (to_numeric_column (fun r => scale 1000 (r_yc r)) df) as [gy [-> _]].
  exists gx, gy. now rewrite combine_columns, map_map.
Qed.

Lemma with_metres_length (df : list Row) :
  length (with_metres df) = length df.
Proof.
  destruct (with_metres_map df) as [gx [gy ->]]. apply length_map.
Qed.

Lemma filter_at_most_one {X K} (key : X -> K) (f : X -> bool) (l : list X) :
  NoDup (map key l) ->
  (forall a b, In a l -> In b l -> f a = true -> f b = true -> key a = key b) ->
  (length (filter f l) <= 1)%nat.
Proof.
  induction l as [|a l IH]; intros Hn Hk; simpl; [lia|].
  simpl in Hn. inversion Hn as [|? ? Ha Hl]; subst.
  assert (Hk' : forall a0 b, In a0 l -> In b l -> f a0 = true -> f b = true ->
                             key a0 = key b)
    by (intros a0 b Ha0 Hb; apply Hk; now right).
  destruct (f a) eqn:Fa; [|now apply IH].
  rewrite filter_none; [simpl; lia|].
  intros x Hx. destruct (f x) eqn:Fx; [|reflexivity].
  exfalso. apply Ha. rewrite (Hk a x); [now apply in_map | now left | now right
                                       | assumption | assumption].
Qed.

Lemma inject_Z_eq (a b : Z) : (inject_Z a == inject_Z b)%Q -> a = b.
Proof. unfold Qeq. simpl. lia. Qed.

Lemma key_match_at_most_one (k : KeyedRow) (cells : list CellRow) :
  NoDup (map centroid_of cells) ->
  (length (filter (key_match k) (df_cells cells)) <= 1)%nat.
Proof.
  intros Hn.
  apply (filter_at_most_one (fun c : CellKey => (snd (fst c), snd c))).
  - unfold df_cells. rewrite map_map. exact Hn.
  - intros [[i x] y] [[i' x'] y'] _ _ Ha Hb. unfold key_match in Ha, Hb.
    apply andb_true_iff in Ha, Hb. destruct Ha as [Ax Ay], Hb as [Bx By].
    apply Qeq_bool_iff in Ax, Ay, Bx, By. simpl.
    f_equal; apply inject_Z_eq; [now rewrite <- Ax | now rewrite <- Ay].
Qed.

Lemma merge_left_length (left : list KeyedRow) (right : list CellKey) :
  (forall k, (length (filter (key_match k) right) <= 1)%nat) ->
  length (merge_left left right) = length left.
Proof.
  intros H. unfold merge_left.
  induction left as [|k left IH]; [reflexivity|].
  cbn [flat_map]. rewrite length_app, IH. specialize (H k).
  destruct (filter (key_match k) right) as [|c [|c' ms]]; simpl in *; lia.
Qed.

Lemma merge_left_cons (k : KeyedRow) (left : list KeyedRow)
  (right : list CellKey) :
  merge_left (k :: left) right =
  match filter (key_match k) right with
  | [] => [mkMerged k None]
  | ms => map (fun '(id, _, _) => mkMerged k (Some id)) ms
  end ++ merge_left left right.
Proof. reflexivity. Qed.

Lemma merge_left_rows (f : Row -> KeyedRow) (l : list Row)
  (right : list CellKey) :
  (forall k, (length (filter (key_match k) right) <= 1)%nat) ->
  (forall r, k_row (f r) = r) ->
  map (fun m => k_row (m_row m)) (merge_left (map f l) right) = l.
Proof.
  intros H1 Hf. induction l as [|r l IH]; [reflexivity|].
  cbn [map]. rewrite merge_left_cons, map_app, IH. specialize (H1 (f r)).
  destruct (filter (key_match (f r)) right) as [|[[i x] y] [|c' ms]];
    simpl in *; [now rewrite Hf | now rewrite Hf | lia].
Qed.

End JoinFacts.

Lemma whole_metres_resolved (ds : Dataset) (cells : list CellRow)
  (m : MergedRow) (c : CellRow) :
  In m (resolved ds cells) ->
  whole_metres (r_xc (k_row (m_row m))) ->
  whole_metres (r_yc (k_row (m_row m))) ->
  In c cells ->
  centroid_x c = centroid_m (r_xc (k_row (m_row m))) ->
  centroid_y c = centroid_m (r_yc (k_row (m_row m))) ->
  exists id c',
    m_cell_id m = Some id /\ In c' cells /\ cell_id c' = id
    /\ centroid_of c' = centroid_of c.
Proof.
  intros Hm Wx Wy Hc Ex Ey.
  destruct (m_cell_id m) as [id|] eqn:E.
  - destruct (resolved_cell_matches ds cells m id Hm E) as [c' [Hc' [Ei [Ex' Ey']]]].
    exists id, c'. repeat split; try assumption.
    unfold centroid_of. congruence.
  - exfalso. pose proof (merge_left_unmatched _ _ _ Hm E) as F.
    pose proof (merge_left_row _ _ _ Hm) as Hk.
    apply with_metres_key in Hk. destruct Hk as [Kx Ky].
    assert (Hin : In (cell_id c, centroid_x c, centroid_y c)
                     (filter (key_match (m_row m)) (df_cells cells))).
    { apply filter_In. split.
      - unfold df_cells. apply in_map_iff. exists c. auto.
      - unfold key_match. rewrite Ex, Ey.
        rewrite (whole_metres_key _ _ Wx Kx), (whole_metres_key _ _ Wy Ky).
        reflexivity. }
    rewrite F in Hin. destruct Hin.
Qed.

(** X6: a record whose coordinates are whole numbers of metres is
    resolved: when the table holds a cell at its centroids, the join gives
    it the key of a cell at those centroids. *)
Theorem whole_metre_record_is_resolved (ds : Dataset) (cells : list CellRow)
  (m : MergedRow) (c : CellRow) :
  In m (resolved ds cells) ->
  whole_metres (r_xc (k_row (m_row m))) ->
  whole_metres (r_yc (k_row (m_row m))) ->
  In c cells ->
  centroid_x c = centroid_m (r_xc (k_row (m_row m))) ->
  centroid_y c = centroid_m (r_yc (k_row (m_row m))) ->
  exists id c',
    m_cell_id m = Some id /\ In c' cells /\ cell_id c' = id
    /\ centroid_of c' = centroid_of c.
Proof.
  intros Hm Wx Wy Hc Ex Ey.
  exact (whole_metres_resolved ds cells m c Hm Wx Wy Hc Ex Ey).
Qed.

Lemma whole_metre_record_is_resolved_witness :
  exists id,
    m_cell_id
      (mkMerged (mkKeyed (mkRow 0 1 0%Q 0%Q (Some (1 # 2)%Q) (Some (1 # 10)%Q))
                   0%Q 0%Q) (Some 1))
    = Some id.
Proof.
  pose (cells := cell_rows (committed (after update_geometries
                                         (loaded 3 two_leadtimes empty_db)))).
  assert (Hc : exists c, In c cells /\ centroid_x c = 0 /\ centroid_y c = 0).
  { vm_compute. eexists. split; [left; reflexivity | split; reflexivity]. }
  destruct Hc as [c [Hc [Ex Ey]]].
  destruct (whole_metre_record_is_resolved two_leadtimes cells
              (mkMerged (mkKeyed (mkRow 0 1 0%Q 0%Q (Some (1 # 2)%Q)
                                    (Some (1 # 10)%Q)) 0%Q 0%Q) (Some 1)) c)
    as [id [c' [E _]]].
  - vm_compute. left. reflexivity.
  - vm_compute. reflexivity.
  - vm_compute. reflexivity.
  - exact Hc.
  - exact Ex.
  - exact Ey.
  - exists id. exact E.
Defined.

(** X7: with no two cells at the same centroids, the join gives one row
    for each prediction taken from the dataset, resolved or not: none is
    lost and none is repeated. *)
Theorem resolved_one_row_per_prediction (ds : Dataset) (cells : list CellRow) :
  NoDup (map centroid_of cells) ->
  length (resolved ds cells) = length (df_predictions ds)
  /\ map (fun m => k_row (m_row m)) (resolved ds cells) = df_predictions ds.
Proof.
  intros Hn. unfold resolved. split.
  - rewrite merge_left_length; [apply with_metres_length|].
    intros k. now apply key_match_at_most_one.
  - destruct (with_metres_map (df_predictions ds)) as [gx [gy ->]].
    apply merge_left_rows; [|reflexivity].
    intros k. now apply key_match_at_most_one.
Qed.

Lemma resolved_one_row_per_prediction_witness :
  length (resolved two_leadtimes
            (cell_rows (committed (after update_geometries
                                     (loaded 3 two_leadtimes empty_db)))))
  = 8%nat.
Proof.
  destruct (resolved_one_row_per_prediction two_leadtimes
              (cell_rows (committed (after update_geometries
                                       (loaded 3 two_leadtimes empty_db)))))
    as [L _].
  - vm_compute. repeat constructor; simpl; intuition discriminate.
  - rewrite L. reflexivity.
Defined.

(** ** [update_predictions], whatever its outcome *)

Section PredictionRunFacts.

Lemma update_predictions_effect_db (s : State) :
  exists records,
    (cnxn (after update_predictions s) = cnxn s
     \/ cnxn (after update_predictions s) = with_predictions records (cnxn s))
    /\ (committed (after update_predictions s) = committed s
        \/ committed (after update_predictions s)
           = cnxn (after update_predictions s))
    /\ (exists qs, executed (after update_predictions s) = executed s ++ qs
                   /\ Forall prediction_statement qs)
    /\ (records = []
        \/ exists ds ct,
             xr s = Some ds /\ cell (cnxn s) = Some ct
             /\ records = resolved ds (rows ct)
             /\ fst (update_predictions s) = Return tt).
Proof.
  unfold after.
  destruct (cell (cnxn s)) as [ct|] eqn:Hc.
  - destruct (xr s) as [ds|] eqn:Hx.
    + destruct (batch_size s) as [|k] eqn:Hk.
      * destruct (update_predictions_zero_size s ds ct Hc Hx Hk) as [e [lg ->]].
        exists []. cbn [snd cnxn committed executed].
        split; [now right|]. split; [now right|]. split; [|now left].
        eexists. split; [reflexivity|]. repeat constructor.
      * rewrite (update_predictions_run s ds ct k Hx Hc Hk).
        exists (resolved ds (rows ct)). cbn [fst snd cnxn committed executed].
        split; [now right|]. split; [now right|]. split.
        -- eexists. split; [reflexivity|]. repeat (constructor; [exact I|]).
           apply Forall_forall. intros q Hq. apply in_map_iff in Hq.
           destruct Hq as [m [<- _]]. exact I.
        -- right. exists ds, ct. auto.
    + destruct (update_predictions_unloaded s ct Hc Hx) as [e [lg ->]].
      exists []. cbn [snd cnxn committed executed].
      split; [now right|]. split; [now right|]. split; [|now left].
      eexists. split; [reflexivity|]. repeat constructor.
  - destruct (update_predictions_no_cells s Hc) as [e [lg [qs [-> Hqs]]]].
    exists []. cbn [snd cnxn committed executed].
    split; [now left|].
    split; [destruct (prediction (cnxn s)); auto|]. split; [|now left].
    exists qs. split; [reflexivity|]. apply Forall_forall. intros q Hq.
    apply Hqs in Hq. destruct Hq as [<-|[<-|[]]]; exact I.
Qed.

Lemma insert_merged_extends (m : MergedRow) (t : Table PredictionRow) :
  exists added, rows (insert_merged m t) = rows t ++ added.
Proof.
  unfold insert_merged, insert_prediction.
  destruct (existsb _ (rows t)); simpl.
  - exists []. now rewrite app_nil_r.
  - eauto.
Qed.

Lemma upsert_predictions_step (m : MergedRow) (records : list MergedRow)
  (t : Table PredictionRow) :
  upsert_predictions (m :: records) t
  = upsert_predictions records (insert_merged m t).
Proof. reflexivity. Qed.

Lemma upsert_predictions_extends (records : list MergedRow) :
  forall t, exists added,
    rows (upsert_predictions records t) = rows t ++ added.
Proof.
  induction records as [|m records IH]; intros t.
  - exists []. now rewrite app_nil_r.
  - rewrite upsert_predictions_step.
    destruct (IH (insert_merged m t)) as [a1 E1].
    destruct (insert_merged_extends m t) as [a2 E2].
    exists (a2 ++ a1). now rewrite E1, E2, app_assoc.
Qed.

(** A row of the table after the upsert was there before or is the row
    of one of the records, with its resolved cell. *)
Lemma upsert_predictions_rows_key (records : list MergedRow) :
  forall (t : Table PredictionRow) (p : PredictionRow),
  In p (rows (upsert_predictions records t)) ->
  In p (rows t)
  \/ exists m, In m records /\ p_cell_id p = m_cell_id m.
Proof.
  induction records as [|m records IH]; intros t p H; [now left|].
  rewrite upsert_predictions_step in H. apply IH in H.
  destruct H as [H|[m' [Hm' E]]].
  - apply insert_prediction_rows in H. destruct H as [H| ->]; [now left|].
    right. exists m. simpl. auto.
  - right. exists m'. simpl. auto.
Qed.

Lemma insert_merged_skip (m : MergedRow) (t : Table PredictionRow) :
  has_prediction m (rows t) -> rows (insert_merged m t) = rows t.
Proof.
  intros [p [id [Hp [Em [Ep [Ed El]]]]]]. unfold insert_merged, insert_prediction.
  match goal with |- context [existsb ?f ?l] =>
    assert (E : existsb f l = true) end.
  { apply existsb_exists. exists p. split; [assumption|].
    unfold prediction_conflict. simpl.
    rewrite Ed, El, Ep, Em, !Z.eqb_refl. apply orb_true_r. }
  now rewrite E.
Qed.

Lemma insert_merged_below (m : MergedRow) (t : Table PredictionRow) :
  predictions_below t -> predictions_below (insert_merged m t).
Proof.
  unfold predictions_below, insert_merged, insert_prediction. intros H.
  assert (H' : Forall (fun p => prediction_id p < next_id t + 1) (rows t)).
  { eapply Forall_impl; [|exact H]. simpl. intros. lia. }
  destruct (existsb _ (rows t)); simpl; [assumption|].
  apply Forall_app. split; [assumption|].
  constructor; [simpl; lia | constructor].
Qed.

Lemma insert_merged_present (m : MergedRow) (t : Table PredictionRow) (id : Z) :
  predictions_below t -> m_cell_id m = Some id ->
  has_prediction m (rows (insert_merged m t)).
Proof.
  unfold predictions_below, insert_merged, insert_prediction. intros H Em.
  destruct (existsb _ (rows t)) eqn:E; simpl.
  - apply existsb_exists in E. destruct E as [p [Hp Hconf]].
    rewrite Forall_forall in H. specialize (H p Hp).
    unfold prediction_conflict in Hconf. simpl in Hconf.
    apply orb_true_iff in Hconf. destruct Hconf as [Hid|Hk].
    + apply Z.eqb_eq in Hid. lia.
    + apply andb_true_iff in Hk. destruct Hk as [Hk Hc].
      apply andb_true_iff in Hk. destruct Hk as [Hd Hl].
      apply Z.eqb_eq in Hd, Hl. rewrite Em in Hc.
      destruct (p_cell_id p) as [c|] eqn:Ec; [|discriminate].
      apply Z.eqb_eq in Hc. subst c.
      exists p, id. auto 6.
  - eexists. exists id. split; [apply in_or_app; right; left; reflexivity|].
    simpl. auto.
Qed.

Lemma has_prediction_app (m : MergedRow) (rs added : list PredictionRow) :
  has_prediction m rs -> has_prediction m (rs ++ added).
Proof.
  intros [p [id [Hp H]]]. exists p, id. split; [|assumption].
  apply in_or_app. now left.
Qed.

Lemma upsert_predictions_below (records : list MergedRow) :
  forall t, predictions_below t ->
            predictions_below (upsert_predictions records t).
Proof.
  induction records as [|m records IH]; intros t H; [assumption|].
  rewrite upsert_predictions_step. apply IH. now apply insert_merged_below.
Qed.

Lemma upsert_predictions_present (records : list MergedRow) :
  Forall (fun m => m_cell_id m <> None) records ->
  forall t, predictions_below t ->
  Forall (fun m => has_prediction m (rows (upsert_predictions records t)))
    records.
Proof.
  induction records as [|m records IH]; intros Hr t H; [constructor|].
  inversion Hr as [|? ? Hm Hms]; subst.
  assert (Hi := insert_merged_below m t H).
  destruct (m_cell_id m) as [id|] eqn:Em; [|contradiction].
  constructor.
  - rewrite upsert_predictions_step.
    destruct (upsert_predictions_extends records (insert_merged m t))
      as [added E].
    rewrite E. apply has_prediction_app.
    now apply (insert_merged_present m t id).
  - rewrite Forall_forall. intros m' Hm'. rewrite upsert_predictions_step.
    specialize (IH Hms _ Hi). rewrite Forall_forall in IH. now apply IH.
Qed.

Lemma upsert_predictions_skip (records : list MergedRow) :
  forall t,
  Forall (fun m => has_prediction m (rows t)) records ->
  rows (upsert_predictions records t) = rows t.
Proof.
  induction records as [|m records IH]; intros t H; [reflexivity|].
  inversion H as [|? ? Hm Hms]; subst.
  assert (E := insert_merged_skip m t Hm).
  rewrite upsert_predictions_step, IH; [assumption|].
  now rewrite E.
Qed.

Lemma ensured_predictions_below (db : DB) :
  prediction_ids_drawn db -> predictions_below (ensured (prediction db)).
Proof.
  unfold prediction_ids_drawn, predictions_below. intros H.
  destruct (prediction db) as [t|]; simpl; [now apply H | constructor].
Qed.

End PredictionRunFacts.

(** X8: whatever its outcome, [update_predictions] sends only statements
    on table [prediction] and the reading of the cells, keeps the table of
    cells and the latest view as they were, and keeps every prediction
    that was there, in place and unchanged, ahead of the new ones. *)
Theorem update_predictions_touches_predictions_only (s : State) :
  cell (cnxn (after update_predictions s)) = cell (cnxn s)
  /\ prediction_latest (cnxn (after update_predictions s))
     = prediction_latest (cnxn s)
  /\ (exists qs, executed (after update_predictions s) = executed s ++ qs
                 /\ Forall prediction_statement qs)
  /\ (exists added,
        rows_of (prediction (cnxn (after update_predictions s)))
        = rows_of (prediction (cnxn s)) ++ added).
Proof.
  destruct (update_predictions_effect_db s) as [records [Hc [_ [Hq _]]]].
  destruct Hc as [-> | ->].
  - repeat split; try assumption. exists []. now rewrite app_nil_r.
  - repeat split; try assumption. cbn [with_predictions prediction rows_of].
    destruct (upsert_predictions_extends records
                (ensured (prediction (cnxn s)))) as [added E].
    exists added. now rewrite E, rows_ensured.
Qed.

(** X9: the foreign key of table [prediction] is kept without being
    checked on the way: if every [cell_id] that is not NULL is the key of
    a cell before [update_predictions], it is after it, in the transaction
    and as committed, whatever the outcome. *)
Theorem update_predictions_keeps_foreign_key (s : State) :
  references_cells (cnxn s) ->
  references_cells (committed s) ->
  references_cells (cnxn (after update_predictions s))
  /\ references_cells (committed (after update_predictions s)).
Proof.
  intros Hcn Hcm.
  assert (Hafter : references_cells (cnxn (after update_predictions s))).
  { destruct (update_predictions_effect_db s) as [records [Hc [_ [_ Hr]]]].
    destruct Hc as [-> | ->]; [assumption|].
    intros p id Hp Eid. unfold cell_rows. cbn [with_predictions cell].
    cbn [with_predictions prediction rows_of] in Hp.
    apply upsert_predictions_rows_key in Hp.
    destruct Hp as [Hp|[m [Hm Em]]].
    - rewrite rows_ensured in Hp. exact (Hcn p id Hp Eid).
    - destruct Hr as [->|[ds [ct [_ [Hct [-> _]]]]]]; [destruct Hm|].
      rewrite Em in Eid.
      destruct (resolved_cell_matches ds (rows ct) m id Hm Eid)
        as [c [Hc [Ei _]]].
      exists c. rewrite Hct. auto. }
  split; [exact Hafter|].
  destruct (update_predictions_effect_db s) as [_ [_ [[E|E] _]]];
    rewrite E; assumption.
Qed.

Lemma update_predictions_keeps_foreign_key_witness :
  references_cells
    (committed (after update_predictions
                  (after update_geometries (loaded 3 two_leadtimes empty_db)))).
Proof.
  apply (update_predictions_keeps_foreign_key
           (after update_geometries (loaded 3 two_leadtimes empty_db)));
    intros p id Hp; vm_compute in Hp; destruct Hp.
Defined.

(** X10: a second run of [update_predictions] on the same dataset, every
    record of which the first run resolved to a cell, returns and leaves
    the rows of table [prediction] as the first run left them. *)
Theorem update_predictions_idempotent (s : State) (ds : Dataset)
  (ct : Table CellRow) (k : nat) :
  xr s = Some ds ->
  cell (cnxn s) = Some ct ->
  batch_size s = S k ->
  prediction_ids_drawn (cnxn s) ->
  Forall (fun m => m_cell_id m <> None) (resolved ds (rows ct)) ->
  exists s1 s2,
    update_predictions s = (Return tt, s1)
    /\ update_predictions s1 = (Return tt, s2)
    /\ rows_of (prediction (committed s2)) = rows_of (prediction (committed s1)).
Proof.
  intros Hx Hc Hk Hids Hres.
  eexists. eexists. split; [apply (update_predictions_run s ds ct k Hx Hc Hk)|].
  split.
  - apply (update_predictions_run _ ds ct k); [reflexivity | exact Hc | reflexivity].
  - cbn [committed cnxn]. unfold with_predictions. cbn [prediction rows_of ensured].
    apply upsert_predictions_skip. apply upsert_predictions_present;
      [exact Hres | now apply ensured_predictions_below].
Qed.

Lemma update_predictions_idempotent_witness :
  exists s1 s2,
    update_predictions
      (after update_geometries (loaded 3 two_leadtimes empty_db))
    = (Return tt, s1)
    /\ update_predictions s1 = (Return tt, s2)
    /\ rows_of (prediction (committed s2)) = rows_of (prediction (committed s1))
    /\ length (rows_of (prediction (committed s1))) = 8%nat.
Proof.
  pose (s0 := after update_geometries (loaded 3 two_leadtimes empty_db)).
  destruct (update_predictions_idempotent s0 two_leadtimes
              (ensured (cell (cnxn s0))) 2)
    as [s1 [s2 [H1 [H2 E]]]].
  - reflexivity.
  - reflexivity.
  - reflexivity.
  - intros t Ht. vm_compute in Ht. discriminate.
  - vm_compute. repeat constructor; discriminate.
  - exists s1, s2. split; [exact H1|]. split; [exact H2|]. split; [exact E|].
    assert (E1 : s1 = snd (update_predictions s0)) by now rewrite H1.
    rewrite E1. vm_compute. reflexivity.
Defined.

(** ** The refresh of the latest view, whatever its outcome *)

Section RefreshRunFacts.

Lemma update_latest_prediction_run (s : State) (v : list LatestRow)
  (ps : Table PredictionRow) (cs : Table CellRow) :
  prediction_latest (cnxn s) = Some v ->
  prediction (cnxn s) = Some ps ->
  cell (cnxn s) = Some cs ->
  update_latest_prediction s =
  (Return tt,
   mkState (batch_size s) (xr s)
     (mkDB (Some cs) (Some ps) (Some (latest_query (rows ps) (rows cs))))
     (mkDB (Some cs) (Some ps) (Some (latest_query (rows ps) (rows cs))))
     (executed s ++ [DropMaterializedViewLatest; CreateMaterializedViewLatest])
     (log s ++ [INFO UpdatingView; INFO UpdatedView])
     (monotonic s) (ticks s)).
Proof.
  intros Hv Hp Hc. unfold update_latest_prediction, cursor_execute.
  run_primitives. rewrite Hv, Hp, Hc. simpl. now rewrite <- app_assoc.
Qed.

Lemma update_latest_prediction_raises (s : State) :
  prediction_latest (cnxn s) = None \/ prediction (cnxn s) = None
  \/ cell (cnxn s) = None ->
  update_latest_prediction s =
  (Raise (DatabaseError UndefinedTable),
   mkState (batch_size s) (xr s) (cnxn s) (committed s)
     (executed s ++ [DropMaterializedViewLatest; CreateMaterializedViewLatest])
     (log s ++ [INFO UpdatingView]) (monotonic s) (ticks s)).
Proof.
  intros H. unfold update_latest_prediction, cursor_execute. run_primitives.
  destruct (prediction_latest (cnxn s)) as [v|]; [|reflexivity]. simpl.
  destruct (prediction (cnxn s)) as [ps|]; [|reflexivity].
  destruct (cell (cnxn s)) as [cs|]; [|reflexivity].
  destruct H as [H|[H|H]]; discriminate.
Qed.

Lemma row_number_ids (l : list JoinedRow) :
  forall n, map prediction_latest_id (row_number n l)
            = map (fun i => n + Z.of_nat i) (seq 0 (length l)).
Proof.
  induction l as [|j l IH]; intros n; [reflexivity|].
  cbn [row_number map length seq prediction_latest_id].
  rewrite IH, <- seq_shift, map_map.
  replace (n + Z.of_nat 0) with n by lia.
  f_equal. apply map_ext. intros i. lia.
Qed.

Lemma full_outer_join_unmatched (ps : list PredictionRow) (cs : list CellRow)
  (p : PredictionRow) :
  In p ps -> p_cell_id p = None ->
  In (mkJoined (Some (prediction_columns p)) None) (full_outer_join ps cs).
Proof.
  intros Hp Hn. unfold full_outer_join. apply in_or_app. left.
  apply in_flat_map. exists p. split; [assumption|].
  rewrite filter_none; [now left|].
  intros c _. unfold join_on. now rewrite Hn.
Qed.

End RefreshRunFacts.

(** X11: the refresh replaces the view or changes nothing.  Whatever its
    outcome, [update_latest_prediction] keeps the tables of cells and of
    predictions as they were; when it raises, the error is that of a
    missing relation, and the view and everything committed are as they
    were before the call. *)
Theorem refresh_replaces_view_or_nothing (s : State) :
  cell (cnxn (after update_latest_prediction s)) = cell (cnxn s)
  /\ prediction (cnxn (after update_latest_prediction s)) = prediction (cnxn s)
  /\ (fst (update_latest_prediction s) = Return tt
      \/ (fst (update_latest_prediction s) = Raise (DatabaseError UndefinedTable)
          /\ cnxn (after update_latest_prediction s) = cnxn s
          /\ committed (after update_latest_prediction s) = committed s)).
Proof.
  unfold after.
  assert (Hraise : prediction_latest (cnxn s) = None \/ prediction (cnxn s) = None
                   \/ cell (cnxn s) = None ->
                   cell (cnxn (snd (update_latest_prediction s))) = cell (cnxn s)
                   /\ prediction (cnxn (snd (update_latest_prediction s)))
                      = prediction (cnxn s)
                   /\ (fst (update_latest_prediction s) = Return tt
                       \/ (fst (update_latest_prediction s)
                           = Raise (DatabaseError UndefinedTable)
                           /\ cnxn (snd (update_latest_prediction s)) = cnxn s
                           /\ committed (snd (update_latest_prediction s))
                              = committed s))).
  { intros H. rewrite (update_latest_prediction_raises s H).
    cbn [fst snd cnxn committed].
    split; [reflexivity|]. split; [reflexivity|]. right.
    repeat split; reflexivity. }
  destruct (prediction_latest (cnxn s)) as [v|] eqn:Hv; [|now apply Hraise; left].
  destruct (prediction (cnxn s)) as [ps|] eqn:Hp;
    [|now apply Hraise; right; left].
  destruct (cell (cnxn s)) as [cs|] eqn:Hc;
    [|now apply Hraise; right; right].
  rewrite (update_latest_prediction_run s v ps cs Hv Hp Hc).
  cbn [fst snd cnxn committed cell prediction]. auto.
Qed.

(** X12: a refresh that returns can be repeated: the second call returns
    too and commits the same database, view included. *)
Theorem refresh_idempotent (s s1 : State) :
  update_latest_prediction s = (Return tt, s1) ->
  exists s2,
    update_latest_prediction s1 = (Return tt, s2)
    /\ committed s2 = committed s1.
Proof.
  intros H.
  destruct (prediction_latest (cnxn s)) as [v|] eqn:Hv;
    [|rewrite update_latest_prediction_raises in H by auto; discriminate].
  destruct (prediction (cnxn s)) as [ps|] eqn:Hp;
    [|rewrite update_latest_prediction_raises in H by auto; discriminate].
  destruct (cell (cnxn s)) as [cs|] eqn:Hc;
    [|rewrite update_latest_prediction_raises in H by auto; discriminate].
  rewrite (update_latest_prediction_run s v ps cs Hv Hp Hc) in H.
  injection H as <-. eexists. split.
  - apply update_latest_prediction_run with
      (v := latest_query (rows ps) (rows cs)); reflexivity.
  - reflexivity.
Qed.

Lemma refresh_idempotent_witness :
  exists s1 s2,
    update_latest_prediction (init 3 two_leadtimes_db clock) = (Return tt, s1)
    /\ update_latest_prediction s1 = (Return tt, s2)
    /\ committed s2 = committed s1.
Proof.
  pose (s1 := snd (update_latest_prediction (init 3 two_leadtimes_db clock))).
  assert (H : update_latest_prediction (init 3 two_leadtimes_db clock)
              = (Return tt, s1)) by (vm_compute; reflexivity).
  destruct (refresh_idempotent _ _ H) as [s2 [H2 E]].
  exists s1, s2. auto.
Defined.

(** X13: the rows of a refreshed view are numbered 1, 2, ... without a
    gap, and a refresh on an empty table of predictions returns with an
    empty view. *)
Theorem refreshed_view_is_numbered (s s1 : State) :
  update_latest_prediction s = (Return tt, s1) ->
  exists view,
    prediction_latest (committed s1) = Some view
    /\ map prediction_latest_id view
       = map (fun i => 1 + Z.of_nat i) (seq 0 (length view))
    /\ (rows_of (prediction (cnxn s)) = [] -> view = []).
Proof.
  intros H. pose proof (update_latest_prediction_returns _ _ H) as R.
  destruct R as [ps [cs [Hp [Hc ->]]]].
  exists (latest_query (rows ps) (rows cs)). split; [reflexivity|]. split.
  - unfold latest_query. rewrite row_number_ids.
    f_equal. f_equal.
    rewrite <- (length_map columns (row_number 1 _)), row_number_columns.
    reflexivity.
  - rewrite Hp. simpl. intros E. unfold latest_query. rewrite E. simpl.
    rewrite filter_none; [reflexivity|]. intros j _.
    unfold where_latest. now destruct (j_prediction j) as [[[[d l] m] sd]|].
Qed.

Lemma refreshed_view_is_numbered_witness :
  exists view,
    prediction_latest
      (committed (after update_latest_prediction
                    (init 3 two_leadtimes_db clock))) = Some view
    /\ map prediction_latest_id view = [1; 2].
Proof.
  pose (s1 := snd (update_latest_prediction (init 3 two_leadtimes_db clock))).
  assert (H : update_latest_prediction (init 3 two_leadtimes_db clock)
              = (Return tt, s1)) by (vm_compute; reflexivity).
  destruct (refreshed_view_is_numbered _ _ H) as [view [Hv [Hn _]]].
  exists view. split; [exact Hv|].
  assert (Ev : prediction_latest (committed s1)
               = Some (latest_query two_predictions one_cell))
    by (vm_compute; reflexivity).
  rewrite Ev in Hv. injection Hv as <-. vm_compute. reflexivity.
Defined.

(** X14: a prediction of the latest date whose [cell_id] is NULL is not
    lost by the join: the refreshed view shows it in exactly one row, with
    no cell beside it. *)
Theorem unresolved_prediction_in_view (s s1 : State) (ps : Table PredictionRow)
  (p : PredictionRow) :
  update_latest_prediction s = (Return tt, s1) ->
  prediction (cnxn s) = Some ps ->
  In p (rows ps) ->
  max_date (rows ps) = Some (date p) ->
  p_cell_id p = None ->
  exists view,
    prediction_latest (committed s1) = Some view
    /\ length (rows_showing (mkJoined (Some (prediction_columns p)) None) view)
       = 1%nat.
Proof.
  intros H Hp Hin Hd Hn.
  pose proof (update_latest_prediction_returns _ _ H) as R.
  destruct R as [ps' [cs [Hp' [Hc ->]]]].
  rewrite Hp in Hp'. injection Hp' as <-.
  eexists. split; [reflexivity|]. unfold latest_query.
  rewrite rows_showing_row_number. apply group_by_one.
  exists (mkJoined (Some (prediction_columns p)) None).
  split; [|apply joined_equiv_refl].
  apply filter_In. split; [now apply full_outer_join_unmatched|].
  unfold where_latest. simpl. rewrite Hd. apply Z.eqb_refl.
Qed.

Lemma unresolved_prediction_in_view_witness :
  exists view,
    prediction_latest
      (committed (after update_latest_prediction (init 3 unresolved_db clock)))
    = Some view
    /\ length (rows_showing
                 (mkJoined (Some (prediction_columns unresolved)) None) view)
       = 1%nat.
Proof.
  pose (s1 := snd (update_latest_prediction (init 3 unresolved_db clock))).
  assert (H : update_latest_prediction (init 3 unresolved_db clock)
              = (Return tt, s1)) by (vm_compute; reflexivity).
  destruct (unresolved_prediction_in_view _ s1 (mkTable [unresolved] 2)
              unresolved H eq_refl) as [view [Hv L]];
    [simpl; auto | reflexivity | reflexivity |].
  exists view. split; [exact Hv | exact L].
Defined.

(** ** The remaining time *)

Section EtaFacts.

Lemma batch_reports_in {A} (t : TableKey) (clock : nat -> Q) (n : Z)
  (start_time : Q) (bl : list (list A)) :
  forall (idx0 : Z) (tick : nat) (t' : TableKey) (idx n' : Z) (len : nat)
         (d : Q),
  In (INFO (BatchDone t' idx n' len (human_readable d)))
     (batch_reports t clock n start_time idx0 tick bl) ->
  exists j, (j < length bl)%nat /\ idx = idx0 + Z.of_nat j /\ n' = n
            /\ d = eta (clock (tick + j)%nat - start_time)%Q n idx.
Proof.
  induction bl as [|b bl IH]; intros idx0 tick t' idx n' len d H; [destruct H|].
  cbn [batch_reports In] in H. destruct H as [H|[H|H]].
  - discriminate.
  - injection H as _ <- <- _ <-. exists O. simpl.
    rewrite Z.add_0_r, Nat.add_0_r. repeat split; lia.
  - apply IH in H. destruct H as [j [Hj [-> [-> ->]]]].
    exists (S j). simpl length. split; [lia|]. split; [lia|].
    split; [reflexivity|].
    now replace (tick + S j)%nat with (S tick + j)%nat by lia.
Qed.

Lemma eta_nonneg (elapsed : Q) (n idx : Z) :
  (0 <= elapsed)%Q -> 1 <= idx <= n -> (0 <= eta elapsed n idx)%Q.
Proof.
  intros He Hi. unfold eta. apply Qmult_le_0_compat; [assumption|].
  apply -> Qle_minus_iff.
  apply Qle_shift_div_l.
  - replace 0%Q with (inject_Z 0) by reflexivity. rewrite <- Zlt_Qlt. lia.
  - rewrite Qmult_1_l. rewrite <- Zle_Qle. lia.
Qed.

Lemma eta_last (elapsed : Q) (n : Z) :
  1 <= n -> (eta elapsed n n == 0)%Q.
Proof.
  intros Hn. unfold eta, Qdiv. rewrite Qmult_inv_r.
  - ring.
  - intros E. apply (inject_Z_eq n 0) in E. lia.
Qed.

Lemma update_predictions_returns (s s1 : State) :
  update_predictions s = (Return tt, s1) ->
  exists ds ct k,
    xr s = Some ds /\ cell (cnxn s) = Some ct /\ batch_size s = S k.
Proof.
  intros H.
  destruct (cell (cnxn s)) as [ct|] eqn:Hc.
  - destruct (xr s) as [ds|] eqn:Hx.
    + destruct (batch_size s) as [|k] eqn:Hk.
      * destruct (update_predictions_zero_size s ds ct Hc Hx Hk) as [e [lg E]].
        rewrite E in H. discriminate.
      * exists ds, ct, k. auto.
    + destruct (update_predictions_unloaded s ct Hc Hx) as [e [lg E]].
      rewrite E in H. discriminate.
  - destruct (update_predictions_no_cells s Hc) as [e [lg [qs [E _]]]].
    rewrite E in H. discriminate.
Qed.

(** The reports of a whole loop: never a negative time, and none left
    after the last chunk. *)
Lemma batch_reports_sound {A} (t : TableKey) (clock : nat -> Q)
  (tick k : nat) (records : list A) (t' : TableKey) (idx n : Z) (len : nat)
  (d : Q) :
  nondecreasing clock ->
  In (INFO (BatchDone t' idx n len (human_readable d)))
     (batch_reports t clock (n_batches_of (length records) (S k))
        (clock tick) 1 (S tick) (batches records (S k))) ->
  (0 <= d)%Q /\ (idx = n -> (d == 0)%Q).
Proof.
  intros Hclock H. apply batch_reports_in in H.
  destruct H as [j [Hj [-> [-> ->]]]].
  assert (Hn : Z.of_nat (length (batches records (S k)))
               = n_batches_of (length records) (S k)) by apply batches_length.
  split.
  - apply eta_nonneg; [|lia].
    apply -> Qle_minus_iff. apply Hclock. lia.
  - intros E. rewrite <- E. apply eta_last. lia.
Qed.

End EtaFacts.

(** X15: with a clock that never runs backwards, no progress report of
    either upserting method shows a negative remaining time, and the
    report after the last chunk shows none left. *)
Theorem remaining_time_never_negative (s s1 : State) (t : TableKey)
  (idx n : Z) (len : nat) (d : Q) :
  nondecreasing (monotonic s) ->
  update_geometries s = (Return tt, s1)
  \/ update_predictions s = (Return tt, s1) ->
  In (INFO (BatchDone t idx n len (human_readable d))) (log s1) ->
  In (INFO (BatchDone t idx n len (human_readable d))) (log s)
  \/ ((0 <= d)%Q /\ (idx = n -> (d == 0)%Q)).
Proof.
  intros Hclock [H|H] Hin.
  - destruct (update_geometries_returns _ _ H) as [ds [records [k [Hx [Hr Hk]]]]].
    rewrite (update_geometries_run s ds records k Hx Hr Hk) in H.
    injection H as <-. cbn [log] in Hin.
    apply in_app_or in Hin. destruct Hin as [Hin|Hin]; [now left|].
    do 5 (destruct Hin as [Hin|Hin]; [discriminate|]).
    apply in_app_or in Hin. destruct Hin as [Hin|Hin].
    + right.
      exact (batch_reports_sound geom (monotonic s) (ticks s) k records
               t idx n len d Hclock Hin).
    + destruct Hin as [Hin|[]]. discriminate.
  - destruct (update_predictions_returns _ _ H) as [ds [ct [k [Hx [Hc Hk]]]]].
    rewrite (update_predictions_run s ds ct k Hx Hc Hk) in H.
    injection H as <-. cbn [log] in Hin.
    apply in_app_or in Hin. destruct Hin as [Hin|Hin]; [now left|].
    do 7 (destruct Hin as [Hin|Hin]; [discriminate|]).
    apply in_app_or in Hin. destruct Hin as [Hin|Hin].
    + right.
      exact (batch_reports_sound predictions (monotonic s) (ticks s) k
               (resolved ds (rows ct)) t idx n len d Hclock Hin).
    + destruct Hin as [Hin|[]]. discriminate.
Qed.

Lemma remaining_time_never_negative_witness :
  nondecreasing clock /\ (eta (clock 2 - clock 0) 2 2 == 0)%Q.
Proof.
  assert (Hclock : nondecreasing clock).
  { intros i j Hij. unfold clock. rewrite <- Zle_Qle. lia. }
  split; [exact Hclock|].
  pose (s1 := snd (update_geometries (loaded 3 two_leadtimes empty_db))).
  assert (H : update_geometries (loaded 3 two_leadtimes empty_db)
              = (Return tt, s1)) by (vm_compute; reflexivity).
  destruct (remaining_time_never_negative
              (loaded 3 two_leadtimes empty_db) s1 geom 2 2 1
              (eta (clock 2 - clock 0) 2 2)) as [Hin|[_ Hz]].
  - exact Hclock.
  - left. exact H.
  - vm_compute. auto 20.
  - destruct Hin.
  - apply Hz. reflexivity.
Defined.

(** ** Loading, and the edges of the two upserting methods *)

(** X16: [load] never touches the database and sends no statement.  It
    returns with the dataset replaced when the decoder succeeds, returns
    with the dataset it had when the decoder raises [ValueError], and lets
    any other exception of the decoder through, the dataset again as it
    was. *)
Theorem load_outcomes (open_dataset : list Byte.byte -> Exn + Dataset)
  (inputBlob : InputStream) (s : State) :
  cnxn (after (load open_dataset inputBlob) s) = cnxn s
  /\ committed (after (load open_dataset inputBlob) s) = committed s
  /\ executed (after (load open_dataset inputBlob) s) = executed s
  /\ match open_dataset (read inputBlob) with
     | inr ds =>
         fst (load open_dataset inputBlob s) = Return tt
         /\ xr (after (load open_dataset inputBlob) s) = Some ds
     | inl (ValueError text) =>
         fst (load open_dataset inputBlob s) = Return tt
         /\ xr (after (load open_dataset inputBlob) s) = xr s
     | inl e =>
         fst (load open_dataset inputBlob s) = Raise e
         /\ xr (after (load open_dataset inputBlob) s) = xr s
     end.
Proof.
  unfold after, load, try_except_ValueError. run_primitives.
  destruct (open_dataset (read inputBlob)) as [e|ds]; simpl.
  - destruct e; simpl; auto.
  - auto.
Qed.

Section EdgeFacts.

Lemma update_predictions_zero_division (s : State) (ds : Dataset)
  (ct : Table CellRow) :
  cell (cnxn s) = Some ct -> xr s = Some ds -> batch_size s = O ->
  exists lg,
    update_predictions s =
    (Raise ZeroDivisionError,
     mkState O (Some ds) (with_predictions [] (cnxn s))
       (with_predictions [] (cnxn s))
       (executed s ++ [CreateTablePredictionIfNotExists; SelectCells]) lg
       (monotonic s) (ticks s)).
Proof.
  intros Hc Hx Hk. unfold update_predictions.
  unfold bind at 1. unfold logging_info at 1, logging at 1.
  unfold bind at 1. unfold cursor_execute at 1. cbn [cnxn].
  rewrite (create_prediction_run _ ct Hc).
  run_primitives. rewrite Hx.
  unfold read_cells. simpl. rewrite Hc.
  unfold insert_batches, count_batches. run_primitives.
  rewrite Hk. rewrite <- app_assoc.
  unfold with_predictions. rewrite Hc. eexists. reflexivity.
Qed.

Lemma update_predictions_fresh (s : State) :
  cell (cnxn s) = None -> prediction (cnxn s) = None ->
  update_predictions s =
  (Raise (DatabaseError UndefinedTable),
   mkState (batch_size s) (xr s) (cnxn s) (committed s)
     (executed s ++ [CreateTablePredictionIfNotExists])
     (log s ++ [INFO (EnsuringTableExists predictions)])
     (monotonic s) (ticks s)).
Proof.
  intros Hc Hp. unfold update_predictions.
  unfold bind at 1. unfold logging_info at 1, logging at 1.
  unfold bind at 1. unfold cursor_execute at 1. cbn [cnxn].
  rewrite (create_prediction_fails _ Hc Hp). reflexivity.
Qed.

End EdgeFacts.

(** X17: with a batch size of zero both upserting methods raise
    [ZeroDivisionError] when they come to count the batches: the table has
    been created and committed by then, and no INSERT is sent. *)
Theorem zero_batch_size_raises (s : State) (ds : Dataset) :
  batch_size s = O ->
  xr s = Some ds ->
  (forall records,
     geometry_records (ds_xc ds) (ds_yc ds) = Some records ->
     fst (update_geometries s) = Raise ZeroDivisionError
     /\ executed (after update_geometries s)
        = executed s ++ [CreateTableCellIfNotExists]
     /\ cell (committed (after update_geometries s))
        = Some (ensured (cell (cnxn s))))
  /\ (forall ct,
        cell (cnxn s) = Some ct ->
        fst (update_predictions s) = Raise ZeroDivisionError
        /\ executed (after update_predictions s)
           = executed s ++ [CreateTablePredictionIfNotExists; SelectCells]
        /\ prediction (committed (after update_predictions s))
           = Some (ensured (prediction (cnxn s)))).
Proof.
  intros Hk Hx. unfold after. split.
  - intros records Hr.
    destruct (update_geometries_zero_size s ds records Hx Hr Hk) as [lg ->].
    auto.
  - intros ct Hc.
    destruct (update_predictions_zero_division s ds ct Hc Hx Hk) as [lg ->].
    auto.
Qed.

Lemma zero_batch_size_raises_witness :
  fst (update_geometries (loaded 0 two_leadtimes empty_db))
  = Raise ZeroDivisionError
  /\ cell (committed (after update_geometries
                        (loaded 0 two_leadtimes empty_db)))
     = Some empty_table.
Proof.
  destruct (zero_batch_size_raises (loaded 0 two_leadtimes empty_db)
              two_leadtimes eq_refl eq_refl) as [Hg _].
  destruct (Hg _ eq_refl) as [Hr [_ Hc]].
  split; [exact Hr | exact Hc].
Defined.

(** X18: [update_predictions] needs the table of cells.  On a database
    that has neither table the CREATE TABLE of the predictions fails on
    its foreign key: the method raises the database error, and nothing is
    created, inserted or committed. *)
Theorem update_predictions_needs_cells (s : State) :
  cell (cnxn s) = None ->
  prediction (cnxn s) = None ->
  fst (update_predictions s) = Raise (DatabaseError UndefinedTable)
  /\ cnxn (after update_predictions s) = cnxn s
  /\ committed (after update_predictions s) = committed s
  /\ executed (after update_predictions s)
     = executed s ++ [CreateTablePredictionIfNotExists].
Proof.
  intros Hc Hp. unfold after. rewrite (update_predictions_fresh s Hc Hp). auto.
Qed.

Lemma update_predictions_needs_cells_witness :
  fst (update_predictions (loaded 3 two_leadtimes empty_db))
  = Raise (DatabaseError UndefinedTable)
  /\ committed (after update_predictions (loaded 3 two_leadtimes empty_db))
     = empty_db.
Proof.
  destruct (update_predictions_needs_cells (loaded 3 two_leadtimes empty_db)
              eq_refl eq_refl) as [Hr [_ [Hc _]]].
  split; [exact Hr | exact Hc].
Defined.

(** ** The shape of the cells *)

Section ShapeFacts.

Lemma abs_steps_nonneg (l : list Q) : Forall (fun d => (0 <= d)%Q) (abs_steps l).
Proof.
  induction l as [|a [|b l] IH]; try constructor.
  - apply Qabs_nonneg.
  - exact IH.
Qed.

Lemma Qsum_nonneg (l : list Q) :
  Forall (fun d => (0 <= d)%Q) l -> (0 <= Qsum l)%Q.
Proof.
  induction 1 as [|d l Hd _ IH]; simpl; [apply Qle_refl|].
  replace 0%Q with (0 + 0)%Q by reflexivity. now apply Qplus_le_compat.
Qed.

Lemma mean_step_size_nonneg (l : list Q) (step : Q) :
  mean_step_size l = Some step -> (0 <= step)%Q.
Proof.
  unfold mean_step_size. pose proof (abs_steps_nonneg l) as H.
  destruct (abs_steps l) as [|d ds]; [discriminate|].
  intros [= <-]. apply Qle_shift_div_l.
  - replace 0%Q with (inject_Z 0) by reflexivity. rewrite <- Zlt_Qlt.
    simpl length. lia.
  - rewrite Qmult_0_l. exact (Qsum_nonneg (d :: ds) H).
Qed.

Lemma py_int_nonneg (q : Q) :
  (0 <= q)%Q ->
  0 <= py_int q /\ (inject_Z (py_int q) <= q)%Q /\ (q < inject_Z (py_int q + 1))%Q.
Proof.
  intros H. rewrite py_int_floor_ceiling.
  assert (Hn : (0 <=? Qnum q) = true).
  { apply Z.leb_le. unfold Qle in H. simpl in H. lia. }
  rewrite Hn. split; [|split].
  - replace 0 with (Qfloor 0) by reflexivity. now apply Qfloor_resp_le.
  - apply Qfloor_le.
  - apply Qlt_floor.
Qed.

Lemma half_nonneg (step : Q) : (0 <= step)%Q -> (0 <= half * step)%Q.
Proof. intros H. apply Qmult_le_0_compat; [discriminate | assumption]. Qed.

Lemma delta_m_nonneg (l : list Q) (d : Z) : delta_m l = Some d -> 0 <= d.
Proof.
  unfold delta_m. destruct (mean_step_size l) as [step|] eqn:E; [|discriminate].
  intros H. assert (Hd : d = 1000 * py_int (half * step)%Q) by congruence.
  apply mean_step_size_nonneg in E.
  destruct (py_int_nonneg _ (half_nonneg _ E)) as [H0 _]. lia.
Qed.

End ShapeFacts.

(** X19: the half-width of the cells along an axis is a whole number of
    kilometres, given in metres: half the mean step of the axis in
    kilometres rounded down, never negative. *)
Theorem half_width_is_whole_kilometres (centroids_km : list Q) (d : Z) :
  delta_m centroids_km = Some d ->
  exists step km,
    mean_step_size centroids_km = Some step
    /\ d = 1000 * km /\ 0 <= km
    /\ (inject_Z km <= half * step)%Q
    /\ (half * step < inject_Z (km + 1))%Q.
Proof.
  unfold delta_m.
  destruct (mean_step_size centroids_km) as [step|] eqn:E; [|discriminate].
  intros H. assert (Hd : d = 1000 * py_int (half * step)%Q) by congruence.
  exists step, (py_int (half * step)%Q).
  apply mean_step_size_nonneg in E.
  destruct (py_int_nonneg _ (half_nonneg _ E)) as [H0 [H1 H2]].
  auto 6.
Qed.

Lemma half_width_is_whole_kilometres_witness :
  exists step km,
    mean_step_size axis_25km = Some step
    /\ 12000 = 1000 * km /\ 0 <= km.
Proof.
  destruct (half_width_is_whole_kilometres axis_25km 12000 eq_refl)
    as [step [km [E [Hd [Hk _]]]]].
  exists step, km. auto.
Defined.

(** X20: every record of a grid carries the same text for both
    geometries, a closed ring of five vertices around a rectangle that has
    the centroid of the record at its centre. *)
Theorem cell_is_centred_rectangle (centroids_x_km centroids_y_km : list Q)
  (records : list GeomRecord) (r : GeomRecord) :
  geometry_records centroids_x_km centroids_y_km = Some records ->
  In r records ->
  exists x_min x_max y_min y_max,
    rec_wkt_6931 r = [(x_min, y_max); (x_max, y_max); (x_max, y_min);
                      (x_min, y_min); (x_min, y_max)]
    /\ rec_wkt_4326 r = rec_wkt_6931 r
    /\ x_min <= rec_centroid_x r <= x_max
    /\ y_min <= rec_centroid_y r <= y_max
    /\ x_min + x_max = 2 * rec_centroid_x r
    /\ y_min + y_max = 2 * rec_centroid_y r.
Proof.
  unfold geometry_records. intros H Hr.
  destruct (delta_m centroids_x_km) as [dx|] eqn:Ex; [|discriminate].
  destruct (delta_m centroids_y_km) as [dy|] eqn:Ey; [|discriminate].
  injection H as <-. apply delta_m_nonneg in Ex, Ey.
  apply build_records_centroid in Hr. destruct Hr as [_ [_ [E6 E4]]].
  exists (rec_centroid_x r - dx), (rec_centroid_x r + dx),
         (rec_centroid_y r - dy), (rec_centroid_y r + dy).
  split; [exact E6|]. split; [exact E4|]. lia.
Qed.

Lemma cell_is_centred_rectangle_witness :
  exists x_min x_max y_min y_max,
    cell_polygon 0 10000 5000 5000
    = [(x_min, y_max); (x_max, y_max); (x_max, y_min);
       (x_min, y_min); (x_min, y_max)]
    /\ x_min <= 0 <= x_max /\ y_min <= 10000 <= y_max.
Proof.
  destruct (cell_is_centred_rectangle axis_10km axis_10km
              (build_records axis_10km axis_10km 5000 5000)
              (mkGeomRecord 0 10000 (cell_polygon 0 10000 5000 5000)
                 (cell_polygon 0 10000 5000 5000)))
    as [x0 [x1 [y0 [y1 [E [_ [Hx [Hy _]]]]]]]].
  - reflexivity.
  - vm_compute. auto.
  - exists x0, x1, y0, y1. auto.
Defined.

(** X21: the records of a grid come x centroid by x centroid, each with
    every y centroid in turn: their centroid pairs are the product of the
    two axes in metres, in that order. *)
Theorem records_in_grid_order (centroids_x_km centroids_y_km : list Q)
  (records : list GeomRecord) :
  geometry_records centroids_x_km centroids_y_km = Some records ->
  map centroid_pair records
  = list_prod (map centroid_m centroids_x_km) (map centroid_m centroids_y_km).
Proof.
  unfold geometry_records. intros H.
  destruct (delta_m centroids_x_km) as [dx|]; [|discriminate].
  destruct (delta_m centroids_y_km) as [dy|]; [|discriminate].
  injection H as <-.
  induction centroids_x_km as [|x xs IH]; [reflexivity|].
  rewrite build_records_cons, map_app, IH. cbn [map list_prod].
  f_equal. now rewrite !map_map.
Qed.

Lemma records_in_grid_order_witness :
  exists records,
    geometry_records axis_10km axis_10km = Some records
    /\ map centroid_pair records
       = [(0, 0); (0, 10000); (10000, 0); (10000, 10000)].
Proof.
  exists (build_records axis_10km axis_10km 5000 5000).
  split; [reflexivity|].
  exact (records_in_grid_order axis_10km axis_10km
           (build_records axis_10km axis_10km 5000 5000) eq_refl).
Defined.

(** ** The connection *)

Section ConnectionFacts.

Variable environ : Connection.Environ.
Variable psycopg2_connect :
  nat -> Connection.ConnectArgs -> Connection.ConnectError + Connection.Handle.

Let cnxn := Connection.cnxn environ psycopg2_connect.
Let cursor := Connection.cursor environ psycopg2_connect.

Lemma cnxn_kept (c : Connection.Client) (h : Connection.Handle) :
  Connection.cnxn_ c = Some h -> cnxn c = (inr h, c).
Proof. intros H. unfold cnxn, Connection.cnxn. now rewrite H. Qed.

Lemma cnxn_returns (c c1 : Connection.Client) (h : Connection.Handle) :
  cnxn c = (inr h, c1) ->
  Connection.cnxn_ c1 = Some h
  /\ Connection.cursor_ c1 = Connection.cursor_ c
  /\ Connection.cursors_made c1 = Connection.cursors_made c
  /\ (length (Connection.connect_calls c1)
      <= S (length (Connection.connect_calls c)))%nat.
Proof.
  unfold cnxn, Connection.cnxn.
  destruct (Connection.cnxn_ c) as [h0|] eqn:E.
  - intros [= <- <-]. auto.
  - destruct (psycopg2_connect _ _) as [[|]|h1]; intros [= <- <-]; simpl.
    rewrite length_app. simpl. repeat split; lia.
Qed.

End ConnectionFacts.

(** X22: the connection and the cursor are made once.  After [cursor] has
    returned, every further reading of [cursor] or [cnxn] gives the same
    cursor and the connection it was made on, and changes nothing: no
    call of [psycopg2.connect], no new cursor. *)
Theorem cursor_made_once (environ : Connection.Environ)
  (psycopg2_connect :
     nat -> Connection.ConnectArgs -> Connection.ConnectError + Connection.Handle)
  (c c1 : Connection.Client) (cur : Connection.CursorHandle) :
  Connection.consistent c ->
  Connection.cursor environ psycopg2_connect c = (inr cur, c1) ->
  Connection.consistent c1
  /\ Connection.cursor environ psycopg2_connect c1 = (inr cur, c1)
  /\ Connection.cnxn environ psycopg2_connect c1 = (inr (fst cur), c1)
  /\ (length (Connection.connect_calls c1)
      <= S (length (Connection.connect_calls c)))%nat.
Proof.
  intros Hc H. unfold Connection.cursor in H.
  destruct (Connection.cursor_ c) as [cur0|] eqn:E.
  - injection H as <- <-. split; [exact Hc|]. split.
    + unfold Connection.cursor. now rewrite E.
    + split; [|lia]. apply cnxn_kept. now apply Hc.
  - destruct (Connection.cnxn environ psycopg2_connect c) as [[e|h] c'] eqn:Ec;
      [discriminate|].
    injection H as <- <-.
    destruct (cnxn_returns _ _ _ _ _ Ec) as [Hh [_ [_ Hl]]].
    split; [|split; [|split]].
    + intros cur [= <-]. simpl. exact Hh.
    + reflexivity.
    + apply cnxn_kept. simpl. exact Hh.
    + exact Hl.
Qed.

Lemma cursor_made_once_witness :
  exists cur c1,
    Connection.cursor Connection.some_environ Connection.accepting
      Connection.new = (inr cur, c1)
    /\ Connection.cursor Connection.some_environ Connection.accepting c1
       = (inr cur, c1)
    /\ length (Connection.connect_calls c1) = 1%nat.
Proof.
  pose (r := Connection.cursor Connection.some_environ Connection.accepting
               Connection.new).
  assert (H : r = (inr (0%nat, 0%nat), snd r)) by reflexivity.
  assert (Hc : Connection.consistent Connection.new)
    by (intros cur E; discriminate).
  destruct (cursor_made_once Connection.some_environ Connection.accepting
              Connection.new (snd r) (0%nat, 0%nat) Hc H) as [_ [H2 _]].
  exists (0%nat, 0%nat), (snd r). split; [exact H|]. split; [exact H2|].
  reflexivity.
Defined.

(** X23: a refused connection is not kept.  When [psycopg2.connect]
    raises, [cnxn] and [cursor] raise the same exception and keep neither
    a connection nor a cursor, so that the next reading calls
    [psycopg2.connect] again; the failure is logged as an error exactly
    when the exception is [OperationalError]. *)
Theorem failed_connection_is_raised (environ : Connection.Environ)
  (psycopg2_connect :
     nat -> Connection.ConnectArgs -> Connection.ConnectError + Connection.Handle)
  (c : Connection.Client) (e : Connection.ConnectError) :
  Connection.cnxn_ c = None ->
  Connection.cursor_ c = None ->
  psycopg2_connect (length (Connection.connect_calls c))
    (Connection.connect_args environ) = inl e ->
  let c1 := snd (Connection.cursor environ psycopg2_connect c) in
  Connection.cursor environ psycopg2_connect c
  = (inl e, snd (Connection.cnxn environ psycopg2_connect c))
  /\ fst (Connection.cnxn environ psycopg2_connect c) = inl e
  /\ Connection.cnxn_ c1 = None
  /\ Connection.cursor_ c1 = None
  /\ Connection.connect_calls c1
     = Connection.connect_calls c ++ [Connection.connect_args environ]
  /\ Connection.connect_log c1
     = Connection.connect_log c
       ++ match e with
          | Connection.OperationalError =>
              [Connection.ErrorFailedToConnect
                 (Connection.fstring (Connection.PSQL_DB environ))
                 (Connection.fstring (Connection.PSQL_HOST environ))]
          | Connection.OtherConnectError => []
          end.
Proof.
  intros Hn Hc He. unfold Connection.cursor, Connection.cnxn.
  rewrite Hc, Hn, He. destruct e; simpl; rewrite ?Hc, ?app_nil_r; auto 7.
Qed.

Lemma failed_connection_is_raised_witness :
  fst (Connection.cursor Connection.some_environ Connection.refusing
         Connection.new) = inl Connection.OperationalError
  /\ length (Connection.connect_log
               (snd (Connection.cursor Connection.some_environ
                       Connection.refusing Connection.new))) = 1%nat.
Proof.
  destruct (failed_connection_is_raised Connection.some_environ
              Connection.refusing Connection.new Connection.OperationalError
              eq_refl eq_refl eq_refl) as [E [_ [_ [_ [_ L]]]]].
  split; [now rewrite E | now rewrite L].
Defined.

Section Lifecycle.

Import String.

(** X24: a processor closes what it opened.  [__del__] after a first
    reading of [cursor] on a new processor closes the one connection that
    reading opened, and closes nothing when the connection was refused;
    either way [psycopg2.connect] was called once, for the user
    [PSQL_USER@PSQL_HOST] on port 5432. *)
Theorem new_processor_closes_its_connection (environ : Connection.Environ)
  (psycopg2_connect :
     nat -> Connection.ConnectArgs -> Connection.ConnectError + Connection.Handle) :
  let r := Connection.cursor environ psycopg2_connect Connection.new in
  Connection.closed (Connection.del (snd r))
  = match fst r with
    | inr cur => [fst cur]
    | inl _ => []
    end
  /\ Connection.connect_calls (snd r) = [Connection.connect_args environ]
  /\ Connection.port (Connection.connect_args environ) = "5432"%string
  /\ Connection.user (Connection.connect_args environ)
     = (Connection.fstring (Connection.PSQL_USER environ) ++ "@"
        ++ Connection.fstring (Connection.PSQL_HOST environ))%string.
Proof.
  unfold Connection.cursor, Connection.cnxn, Connection.del. simpl.
  destruct (psycopg2_connect 0%nat (Connection.connect_args environ))
    as [[|]|h]; simpl; auto.
Qed.

End Lifecycle.

(** ** The two upserting methods together *)

Section PipelineFacts.

Lemma enumerate_snd {X} (l : list X) (p : nat * X) :
  In p (enumerate l) -> In (snd p) l.
Proof.
  unfold enumerate. destruct p as [i x]. intros H.
  now apply in_combine_r in H.
Qed.

Lemma to_dataframe_coordinates (ds : Dataset) (r : Row) :
  In r (to_dataframe ds) -> In (r_xc r) (ds_xc ds) /\ In (r_yc r) (ds_yc ds).
Proof.
  unfold to_dataframe. intros H.
  apply in_flat_map in H. destruct H as [t [_ H]].
  apply in_flat_map in H. destruct H as [l [_ H]].
  apply in_flat_map in H. destruct H as [x [Hx H]].
  apply in_map_iff in H. destruct H as [y [<- Hy]]. simpl.
  split; now apply enumerate_snd.
Qed.

End PipelineFacts.

(** X25: on a grid of whole metres the two methods agree.  When every
    centroid of the dataset is a whole number of metres and
    [update_geometries] has returned, the join of [update_predictions]
    resolves every prediction: none is left without a cell. *)
Theorem whole_metre_grid_fully_resolved (s s1 : State) (ds : Dataset) :
  cell_ids_drawn (cnxn s) ->
  xr s = Some ds ->
  update_geometries s = (Return tt, s1) ->
  Forall whole_metres (ds_xc ds) ->
  Forall whole_metres (ds_yc ds) ->
  Forall (fun m => m_cell_id m <> None)
    (resolved ds (cell_rows (committed s1))).
Proof.
  intros Hids Hx H Wx Wy. apply Forall_forall. intros m Hm.
  pose proof (resolved_row _ _ _ Hm) as Hr.
  rewrite df_predictions_keeps_exactly_eq in Hr.
  apply filter_In in Hr. destruct Hr as [Hr _].
  apply to_dataframe_coordinates in Hr. destruct Hr as [Hinx Hiny].
  rewrite Forall_forall in Wx, Wy.
  destruct (grid_is_covered s s1 ds Hids Hx H _ _ Hinx Hiny)
    as [c [Hc [Ex Ey]]].
  destruct (whole_metres_resolved ds _ m c Hm (Wx _ Hinx) (Wy _ Hiny) Hc Ex Ey)
    as [id [_ [E _]]].
  rewrite E. discriminate.
Qed.

Lemma whole_metre_grid_fully_resolved_witness :
  Forall (fun m => m_cell_id m <> None)
    (resolved two_leadtimes
       (cell_rows (committed (after update_geometries
                                (loaded 3 two_leadtimes empty_db))))).
Proof.
  pose (s1 := snd (update_geometries (loaded 3 two_leadtimes empty_db))).
  assert (H : update_geometries (loaded 3 two_leadtimes empty_db)
              = (Return tt, s1)) by (vm_compute; reflexivity).
  apply (whole_metre_grid_fully_resolved
           (loaded 3 two_leadtimes empty_db) s1 two_leadtimes
           cell_ids_drawn_empty eq_refl H);
    repeat constructor.
Defined.
